(** * Merkle commitment engine and gradient pipeline of the ZK-FL fixture
      generators

    Shallow embedding of
      - [scripts/generate_balance_test_data.py]  (module [Balance]),
      - [scripts/generate_training_test_data.py] (modules [Sha256],
        [Training], [Numeric] and [Binary64]),
    followed by the properties of the specification that were checked
    against them.

    Conventions.
      - A Python [int] is a [Z]; [len(...)], [range(...)] bounds and loop
        counters that can never be negative are [nat].
      - A Python [list] is a [list]; [l[i]] with an index that may be
        negative or out of range is [py_getitem], which follows CPython
        (a negative index is shifted by the length once, anything still
        outside raises [IndexError]).
      - A Python [float] is an IEEE 754 binary64 number: the primitive
        [float] of the standard library, whose operations round to nearest
        even, overflow to an infinity and propagate NaN as the hardware
        does (module [Binary64]).  The builtin [sum] and [x ** 0.5], whose
        last bit depends on the interpreter and on the C library, are
        parameters of the norm, constrained by [runtime_laws]; left-to-right
        addition and the square root are the instance used in examples.
        Only [compute_gradient], whose checked properties use no law of
        arithmetic, is stated over the reals (module [Numeric]).
      - Code that can raise returns a [result]; [Raise e] is the exception
        that leaves the function. *)

From Equations Require Import Equations.
From Stdlib Require Import ZArith List Arith Lia Bool ZifyNat Reals Lra.
From Stdlib Require String Ascii DecimalString DecimalZ Floats QArith Qabs.
Import ListNotations.

(** ** Exceptions *)

Inductive PyExn : Type :=
| ValueError
| IndexError
| ZeroDivisionError
| OverflowError.

Inductive result (A : Type) : Type :=
| Ok (a : A)
| Raise (e : PyExn).

Arguments Ok {A} a.
Arguments Raise {A} e.

Definition bind {A B : Type} (m : result A) (k : A -> result B) : result B :=
  match m with
  | Ok a => k a
  | Raise e => Raise e
  end.

Notation "x <- m ;; k" := (bind m (fun x => k))
  (at level 61, m at next level, right associativity).

(** Truth value of a Python [int] used as a condition. *)
Definition truthy (z : Z) : bool := negb (z =? 0)%Z.

(** ** Python list access *)

(** [l[i]]: a negative [i] counts from the end. *)
Definition py_getitem {A : Type} (l : list A) (i : Z) : result A :=
  let len := Z.of_nat (length l) in
  let j := if (i <? 0)%Z then (i + len)%Z else i in
  if ((j <? 0) || (len <=? j))%Z then Raise IndexError
  else match nth_error l (Z.to_nat j) with
       | Some x => Ok x
       | None => Raise IndexError
       end.

(** A comprehension whose body can raise: the first exception leaves the
    loop. *)
Fixpoint map_result {A B : Type} (f : A -> result B) (l : list A)
    : result (list B) :=
  match l with
  | [] => Ok []
  | x :: rest =>
      y <- f x ;;
      ys <- map_result f rest ;;
      Ok (y :: ys)
  end.

(** [str(z)] for an [int], and [int(s)] for a string that [str] printed. *)
Definition py_str (z : Z) : String.string :=
  DecimalString.NilZero.string_of_int (Z.to_int z).

Definition py_int_of_str (s : String.string) : result Z :=
  match DecimalString.NilZero.int_of_string s with
  | Some d => Ok (Z.of_int d)
  | None => Raise ValueError
  end.

(** [s.encode()]: the bytes of an ASCII string. *)
Definition py_encode (s : String.string) : list Z :=
  map (fun a => Z.of_N (Ascii.N_of_ascii a)) (String.list_ascii_of_string s).

(** [range(0, len, 2)] *)
Definition range2 (len : nat) : list nat :=
  map (fun k => 2 * k) (seq 0 ((len + 1) / 2)).

(** ** The balance generator *)

Module Balance.

Local Open Scope Z_scope.

Definition PRIME : Z :=
  21888242871839275222246405745257275088548364400416034343698204186575808495617.

(** [sum(inputs)] *)
Definition py_sum (inputs : list Z) : Z := fold_left Z.add inputs 0.

Definition poseidon_mock (inputs : list Z) : Z :=
  let result := py_sum inputs * 1234567 + 987654321 in
  result mod PRIME.

Definition poseidon_hash_single (value : Z) : Z := poseidon_mock [value].

Definition poseidon_hash_pair (left right : Z) : Z := poseidon_mock [left; right].

(** The guard [i + 1 < len(current_level)] of the loop body of
    [_build_tree]. *)
Definition has_right (current_level : list Z) (i : nat) : bool :=
  (i + 1 <? length current_level)%nat.

(** One iteration of the [for] loop of [_build_tree]: the parent of the
    pair that starts at [i]. *)
Definition parent_at (current_level : list Z) (i : nat) : Z :=
  let left := nth i current_level 0 in
  let right := if has_right current_level i
               then nth (i + 1) current_level 0
               else nth i current_level 0 in
  poseidon_hash_pair left right.

(** The [for i in range(0, len(current_level), 2)] loop. *)
Definition next_level (current_level : list Z) : list Z :=
  map (parent_at current_level) (range2 (length current_level)).

(** [_build_tree]: the [while len(current_level) > 1] loop. *)
Equations? _build_tree (current_level : list Z) : list (list Z)
  by wf (length current_level) lt :=
  _build_tree current_level with le_lt_dec (length current_level) 1 => {
    | left _ := [current_level];
    | right _ := current_level :: _build_tree (next_level current_level) }.
Proof.
  unfold next_level, range2. rewrite !length_map, length_seq.
  apply Nat.Div0.div_lt_upper_bound. lia.
Qed.

(** The depth loop of [__init__]:
    [while temp > 1: temp = (temp + 1) // 2; self.depth += 1]. *)
Equations? depth_loop (temp depth : nat) : nat by wf temp lt :=
  depth_loop temp depth with le_lt_dec temp 1 => {
    | left _ := depth;
    | right _ := depth_loop ((temp + 1) / 2) (depth + 1) }.
Proof.
  assert (H : ((temp + 1) / 2 < temp)%nat)
    by (apply Nat.Div0.div_lt_upper_bound; lia).
  exact H.
Qed.

(** The padding loop of [__init__]:
    [while len(self.leaf_hashes) < self.padded_n: append(hash(0))]. *)
Equations? pad_loop (leaf_hashes : list Z) (padded_n : nat) : list Z
  by wf (padded_n - length leaf_hashes)%nat lt :=
  pad_loop leaf_hashes padded_n with le_lt_dec padded_n (length leaf_hashes) => {
    | left _ := leaf_hashes;
    | right _ := pad_loop (leaf_hashes ++ [poseidon_hash_single 0]) padded_n }.
Proof.
  rewrite length_app. simpl. lia.
Qed.

Record MerkleTree : Type := mkMerkleTree {
  leaves : list Z;
  n : nat;
  depth : nat;
  padded_n : nat;
  leaf_hashes : list Z;
  tree : list (list Z);
  root : Z
}.

(** [MerkleTree.__init__] *)
Definition init (leaves : list Z) : result MerkleTree :=
  let n := length leaves in
  let depth := depth_loop n 0 in
  let padded_n := (2 ^ depth)%nat in
  let leaf_hashes := pad_loop (map poseidon_hash_single leaves) padded_n in
  let tree := _build_tree leaf_hashes in
  top <- py_getitem tree (-1) ;;
  root <- py_getitem top 0 ;;
  Ok (mkMerkleTree leaves n depth padded_n leaf_hashes tree root).

(** The sibling looked up by one iteration of the loop of [get_proof]:
    [tree[level][sibling_index]], or the node itself at the boundary. *)
Definition sibling_at (lvl : list Z) (current_index : Z) : result Z :=
  let is_right := current_index mod 2 in
  let sibling_index :=
    if truthy is_right then current_index - 1 else current_index + 1 in
  if sibling_index <? Z.of_nat (length lvl)
  then py_getitem lvl sibling_index
  else py_getitem lvl current_index.

(** The body of [for level in range(self.depth)] in [get_proof], threaded
    through the remaining levels. *)
Fixpoint get_proof_loop (tree : list (list Z)) (levels : list nat)
    (siblings path_indices : list Z) (current_index : Z)
    : result (list Z * list Z) :=
  match levels with
  | [] => Ok (siblings, path_indices)
  | level :: rest =>
      let is_right := current_index mod 2 in
      let path_indices := path_indices ++ [is_right] in
      lvl <- py_getitem tree (Z.of_nat level) ;;
      sibling <- sibling_at lvl current_index ;;
      get_proof_loop tree rest (siblings ++ [sibling]) path_indices
                     (current_index / 2)
  end.

(** [MerkleTree.get_proof] *)
Definition get_proof (self : MerkleTree) (index : Z)
    : result (list Z * list Z) :=
  if Z.of_nat (n self) <=? index then Raise ValueError
  else get_proof_loop (tree self) (seq 0 (depth self)) [] [] index.

(** One step of the loop of [verify_merkle_proof]. *)
Definition verify_step (current_hash : Z) (step : Z * Z) : Z :=
  let '(sibling, is_right) := step in
  if truthy is_right
  then poseidon_hash_pair sibling current_hash
  else poseidon_hash_pair current_hash sibling.

(** [verify_merkle_proof] *)
Definition verify_merkle_proof (leaf_value : Z) (siblings path_indices : list Z)
    (root : Z) : bool :=
  let current_hash := poseidon_hash_single leaf_value in
  fold_left verify_step (combine siblings path_indices) current_hash =? root.

(** The dictionary [circuit_input] that [generate_test_data] builds and
    [test_verification] reads, one field per key. *)
Record CircuitInput : Type := mkCircuitInput {
  ci_client_id : String.string;
  ci_root : String.string;
  ci_N_public : String.string;
  ci_c0 : String.string;
  ci_c1 : String.string;
  ci_bits : list String.string;
  ci_siblings : list (list String.string);
  ci_pathIndices : list (list String.string)
}.

(** [labels.count(value)] *)
Definition py_count (labels : list Z) (value : Z) : Z :=
  Z.of_nat (count_occ Z.eq_dec labels value).

(** The body of [generate_test_data] from [tree = MerkleTree(labels)] to
    the dictionary it returns; the console output and the JSON file are
    left out. *)
Definition circuit_input_of (labels : list Z) : result CircuitInput :=
  tree <- init labels ;;
  proofs <- map_result (fun i => get_proof tree (Z.of_nat i))
                       (seq 0 (length labels)) ;;
  let all_siblings := map fst proofs in
  let all_path_indices := map snd proofs in
  Ok (mkCircuitInput
        (py_str 1)
        (py_str (root tree))
        (py_str (Z.of_nat (length labels)))
        (py_str (py_count labels 0))
        (py_str (py_count labels 1))
        (map py_str labels)
        (map (map py_str) all_siblings)
        (map (map py_str) all_path_indices)).

(** [generate_test_data], with its dataset of eight labels. *)
Definition generate_test_data : result CircuitInput :=
  circuit_input_of [0; 1; 1; 0; 1; 1; 1; 0].

(** The loop [for i in range(len(bits))] of [test_verification]. *)
Fixpoint verification_loop (circuit_input : CircuitInput) (root : Z)
    (bits : list Z) (indices : list nat) (all_valid : bool) : result bool :=
  match indices with
  | [] => Ok all_valid
  | i :: rest =>
      sibling_strs <- py_getitem (ci_siblings circuit_input) (Z.of_nat i) ;;
      siblings <- map_result py_int_of_str sibling_strs ;;
      path_strs <- py_getitem (ci_pathIndices circuit_input) (Z.of_nat i) ;;
      path_indices <- map_result py_int_of_str path_strs ;;
      bit <- py_getitem bits (Z.of_nat i) ;;
      let valid := verify_merkle_proof bit siblings path_indices root in
      verification_loop circuit_input root bits rest
                        (if valid then all_valid else false)
  end.

(** [test_verification], without its console output. *)
Definition test_verification (circuit_input : CircuitInput) : result bool :=
  root <- py_int_of_str (ci_root circuit_input) ;;
  bits <- map_result py_int_of_str (ci_bits circuit_input) ;;
  verification_loop circuit_input root bits (seq 0 (length bits)) true.

End Balance.

(** ** SHA-256 ([hashlib.sha256], FIPS 180-4) *)

Module Sha256.

Local Open Scope Z_scope.

(** Words are integers below [2 ^ 32]; bytes are integers below [256]. *)
Definition wrap32 (x : Z) : Z := x mod 2 ^ 32.

Definition add32 (x y : Z) : Z := wrap32 (x + y).

Definition rotr (k x : Z) : Z :=
  Z.lor (Z.shiftr x k) (wrap32 (Z.shiftl x (32 - k))).

Definition not32 (x : Z) : Z := 2 ^ 32 - 1 - x.

Definition ch (x y z : Z) : Z :=
  Z.lxor (Z.land x y) (Z.land (not32 x) z).

Definition maj (x y z : Z) : Z :=
  Z.lxor (Z.lxor (Z.land x y) (Z.land x z)) (Z.land y z).

Definition big_sigma0 (x : Z) : Z :=
  Z.lxor (Z.lxor (rotr 2 x) (rotr 13 x)) (rotr 22 x).

Definition big_sigma1 (x : Z) : Z :=
  Z.lxor (Z.lxor (rotr 6 x) (rotr 11 x)) (rotr 25 x).

Definition small_sigma0 (x : Z) : Z :=
  Z.lxor (Z.lxor (rotr 7 x) (rotr 18 x)) (Z.shiftr x 3).

Definition small_sigma1 (x : Z) : Z :=
  Z.lxor (Z.lxor (rotr 17 x) (rotr 19 x)) (Z.shiftr x 10).

(** The first sixty-four primes. *)
Definition primes : list Z :=
  [2; 3; 5; 7; 11; 13; 17; 19; 23; 29; 31; 37; 41; 43; 47; 53;
   59; 61; 67; 71; 73; 79; 83; 89; 97; 101; 103; 107; 109; 113; 127; 131;
   137; 139; 149; 151; 157; 163; 167; 173; 179; 181; 191; 193; 197; 199;
   211; 223; 227; 229; 233; 239; 241; 251; 257; 263; 269; 271; 277; 281;
   283; 293; 307; 311].

(** Integer cube root, one bit at a time from bit [bits - 1] down. *)
Fixpoint cube_root_bits (bits : nat) (x acc : Z) : Z :=
  match bits with
  | O => acc
  | S b =>
      let c := acc + 2 ^ Z.of_nat b in
      if c * c * c <=? x then cube_root_bits b x c else cube_root_bits b x acc
  end.

(** The round constants: the first 32 bits of the fractional part of the
    cube root of each prime. *)
Definition round_constants : list Z :=
  Eval vm_compute in
    map (fun p => wrap32 (cube_root_bits 36 (p * 2 ^ 96) 0)) primes.

(** The initial hash value: the first 32 bits of the fractional part of the
    square root of each of the first eight primes. *)
Definition initial_hash : list Z :=
  Eval vm_compute in
    map (fun p => wrap32 (Z.sqrt (p * 2 ^ 64))) (firstn 8 primes).

(** Big-endian bytes of [x], [k] of them. *)
Fixpoint be_bytes (k : nat) (x : Z) : list Z :=
  match k with
  | O => []
  | S k' => (x / 256 ^ Z.of_nat k') mod 256 :: be_bytes k' x
  end.

Definition be_value (bytes : list Z) : Z :=
  fold_left (fun acc b => acc * 256 + b) bytes 0.

(** Padding: a [1] bit, zeros up to 56 modulo 64 bytes, then the length of
    the message in bits on 8 bytes. *)
Definition pad (msg : list Z) : list Z :=
  let len := Z.of_nat (length msg) in
  let zeros := Z.to_nat ((55 - len) mod 64) in
  msg ++ [128] ++ repeat 0 zeros ++ be_bytes 8 (8 * len).

(** The 32-bit words of a byte sequence whose length is a multiple of 4. *)
Fixpoint words (bytes : list Z) : list Z :=
  match bytes with
  | a :: b :: c :: d :: rest => be_value [a; b; c; d] :: words rest
  | _ => []
  end.

(** The blocks of 16 words of a word sequence; [count] is their number. *)
Fixpoint blocks (count : nat) (ws : list Z) : list (list Z) :=
  match count with
  | O => []
  | S c => firstn 16 ws :: blocks c (skipn 16 ws)
  end.

(** The message schedule: [extra] words appended to the 16 of the block. *)
Fixpoint schedule (extra : nat) (ws : list Z) : list Z :=
  match extra with
  | O => ws
  | S e =>
      let t := length ws in
      let at_ (back : nat) := nth (t - back) ws 0 in
      let next := add32 (add32 (small_sigma1 (at_ 2%nat)) (at_ 7%nat))
                        (add32 (small_sigma0 (at_ 15%nat)) (at_ 16%nat)) in
      schedule e (ws ++ [next])
  end.

Record state : Type := mkState {
  ra : Z; rb : Z; rc : Z; rd : Z; re : Z; rf : Z; rg : Z; rh : Z
}.

Definition round (s : state) (kw : Z * Z) : state :=
  let '(k, w) := kw in
  let t1 := add32 (add32 (add32 (rh s) (big_sigma1 (re s)))
                         (add32 (ch (re s) (rf s) (rg s)) k)) w in
  let t2 := add32 (big_sigma0 (ra s)) (maj (ra s) (rb s) (rc s)) in
  mkState (add32 t1 t2) (ra s) (rb s) (rc s)
          (add32 (rd s) t1) (re s) (rf s) (rg s).

Definition state_of (h : list Z) : state :=
  mkState (nth 0 h 0) (nth 1 h 0) (nth 2 h 0) (nth 3 h 0)
          (nth 4 h 0) (nth 5 h 0) (nth 6 h 0) (nth 7 h 0).

Definition compress (h : list Z) (block : list Z) : list Z :=
  let s := fold_left round (combine round_constants (schedule 48 block))
                     (state_of h) in
  map (fun '(x, y) => add32 x y)
      (combine h [ra s; rb s; rc s; rd s; re s; rf s; rg s; rh s]).

(** The digest as the integer that [int(h.hexdigest(), 16)] reads. *)
Definition digest_int (msg : list Z) : Z :=
  let ws := words (pad msg) in
  let h := fold_left compress (blocks (length ws / 16) ws) initial_hash in
  fold_left (fun acc w => acc * 2 ^ 32 + w) h 0.

End Sha256.


(** ** The training generator: hash and Merkle tree *)

Module Training.

Local Open Scope Z_scope.

(** [poseidon_hash]: SHA-256 of the concatenated decimal
    representations, reduced modulo [2 ** 251]. *)
Definition poseidon_hash (inputs : list Z) : Z :=
  Sha256.digest_int (concat (map (fun inp => py_encode (py_str inp)) inputs))
  mod 2 ^ 251.

(** The loop [while size < n: size *= 2; depth += 1] of
    [build_merkle_tree]; [size] starts at 1 and stays positive. *)
Equations? size_loop (n : nat) (size : positive) (depth : nat)
  : positive * nat by wf (n - Pos.to_nat size)%nat lt :=
  size_loop n size depth with le_lt_dec n (Pos.to_nat size) => {
    | left _ := (size, depth);
    | right _ := size_loop n (size * 2)%positive (depth + 1)%nat }.
Proof.
  rewrite Pos2Nat.inj_mul. pose proof (Pos2Nat.is_pos size).
  change (Pos.to_nat 2) with 2%nat. lia.
Qed.

(** [leaves + [0] * (size - n)] *)
Definition padded_leaves (leaves : list Z) : list Z :=
  let n := length leaves in
  let '(size, depth) := size_loop n 1 0 in
  leaves ++ repeat 0 (Pos.to_nat size - n).

(** The guard [i + 1 < len(current_level)] of the tree loop. *)
Definition has_right (current_level : list Z) (i : nat) : bool :=
  (i + 1 <? length current_level)%nat.

(** One iteration of the [for] loop that builds a level. *)
Definition parent_at (current_level : list Z) (i : nat) : Z :=
  let left := nth i current_level 0 in
  let right := if has_right current_level i
               then nth (i + 1) current_level 0
               else 0 in
  poseidon_hash [left; right].

Definition next_level (current_level : list Z) : list Z :=
  map (parent_at current_level) (range2 (length current_level)).

(** The [while len(current_level) > 1] loop. *)
Equations? build_levels (current_level : list Z) : list (list Z)
  by wf (length current_level) lt :=
  build_levels current_level with le_lt_dec (length current_level) 1 => {
    | left _ := [current_level];
    | right _ := current_level :: build_levels (next_level current_level) }.
Proof.
  unfold next_level, range2. rewrite !length_map, length_seq.
  apply Nat.Div0.div_lt_upper_bound. lia.
Qed.

(** The local [tree] of [build_merkle_tree]. *)
Definition merkle_levels (leaves : list Z) : list (list Z) :=
  build_levels (padded_leaves leaves).

(** The body of [for level in range(depth)], threaded through the
    remaining levels. *)
Fixpoint proof_loop (tree : list (list Z)) (levels : list nat)
    (siblings indices : list Z) (current_idx : Z)
    : result (list Z * list Z) :=
  match levels with
  | [] => Ok (siblings, indices)
  | level :: rest =>
      let sibling_idx := Z.lxor current_idx 1 in
      lvl <- py_getitem tree (Z.of_nat level) ;;
      sibling <- (if sibling_idx <? Z.of_nat (length lvl)
                  then py_getitem lvl sibling_idx
                  else Ok 0) ;;
      proof_loop tree rest (siblings ++ [sibling])
                 (indices ++ [current_idx mod 2]) (current_idx / 2)
  end.

(** [build_merkle_tree]: the root, and the siblings and path indices of
    every original leaf. *)
Definition build_merkle_tree (leaves : list Z)
    : result (Z * list (list Z) * list (list Z)) :=
  let n := length leaves in
  let '(size, depth) := size_loop n 1 0 in
  let tree := merkle_levels leaves in
  top <- py_getitem tree (-1) ;;
  root <- py_getitem top 0 ;;
  proofs <- map_result
              (fun leaf_idx =>
                 proof_loop tree (seq 0 depth) [] [] (Z.of_nat leaf_idx))
              (seq 0 n) ;;
  Ok (root, map fst proofs, map snd proofs).

End Training.


(** ** The training generator: gradient of the linear model *)

Module Numeric.

Local Open Scope R_scope.

(** [sum(...)] of floats *)
Definition py_sum (terms : list R) : R := fold_left Rplus terms 0.


End Numeric.

(** ** The training generator: fixed-point codec and gradient clipping

    The floats of these functions are binary64 numbers.  [Prim2SF] gives
    the sign, mantissa and exponent of a float, or tells that it is a zero,
    an infinity or NaN; the arithmetic is the primitive one. *)

Module Binary64.

Import PrimFloat SpecFloat FloatOps.

Local Open Scope float_scope.

(** [PRECISION = 1000]; in [value * PRECISION] the [int] is converted to
    the float 1000.0, which is exact. *)
Definition PRECISION : float := 1000.

(** [int(x)] for a float [x]: the value [m * 2^e] truncated toward zero;
    [OverflowError] for an infinity and [ValueError] for NaN. *)
Definition py_int (x : float) : result Z :=
  match Prim2SF x with
  | S754_nan => Raise ValueError
  | S754_infinity _ => Raise OverflowError
  | S754_zero _ => Ok 0%Z
  | S754_finite s m e =>
      let magnitude :=
        if (0 <=? e)%Z then (Z.pos m * 2 ^ e)%Z
        else (Z.pos m / 2 ^ (- e))%Z in
      Ok (if s then (- magnitude)%Z else magnitude)
  end.

Definition to_fixed (value : float) : result String.string :=
  k <- py_int (value * PRECISION) ;;
  Ok (py_str k).

(** An [int] as the operand of a true division. *)
Definition exact_int (z : Z) : spec_float :=
  match z with
  | Z0 => S754_zero false
  | Zpos p => S754_finite false p 0
  | Zneg p => S754_finite true p 0
  end.

(** [value / PRECISION] for two [int]s: the quotient correctly rounded to
    binary64, [OverflowError] when it is too large for a float. *)
Definition from_fixed (value : Z) : result float :=
  match SFdiv prec emax (exact_int value) (exact_int 1000) with
  | S754_infinity _ => Raise OverflowError
  | q => Ok (SF2Prim q)
  end.

(** The two operations of [compute_l2_norm] whose last bit is not fixed by
    the language: the builtin [sum] on floats, which adds from left to
    right up to CPython 3.11 and carries a compensation term after it, and
    [x ** 0.5], the [pow] of the C library, which may differ from the
    correctly rounded square root in the last bit. *)
Record Runtime : Type := mkRuntime {
  float_sum : list float -> float;
  pow_half : float -> float
}.

(** [sum(...)] of floats: from the [int] 0, which the first addition
    converts to 0.0, adding from left to right. *)
Definition py_sum (terms : list float) : float := fold_left add terms 0.

(** The runtime with left-to-right addition and the correctly rounded
    square root. *)
Definition reference : Runtime :=
  {| float_sum := py_sum; pow_half := sqrt |}.

(** [a / b] for floats *)
Definition py_div (a b : float) : result float :=
  if b =? 0 then Raise ZeroDivisionError else Ok (a / b).

(** [sum(v * v for v in vector) ** 0.5] *)
Definition compute_l2_norm (rt : Runtime) (vector : list float) : float :=
  pow_half rt (float_sum rt (map (fun v => v * v) vector)).

Definition clip_gradient (rt : Runtime) (gradient : list float) (tau : float)
    : result (list float) :=
  let norm := compute_l2_norm rt gradient in
  if tau <? norm then
    scale <- py_div tau norm ;;
    Ok (map (fun g => scale * g) gradient)
  else Ok gradient.

(** The kinds of float that the statements distinguish. *)
Definition is_NaN (x : float) : bool :=
  match Prim2SF x with
  | S754_nan => true
  | _ => false
  end.



(** [+0.0], a positive number or [+inf]. *)
Definition is_nonneg (x : float) : bool :=
  match Prim2SF x with
  | S754_zero false | S754_finite false _ _ | S754_infinity false => true
  | _ => false
  end.

(** What the statements use of [sum] and of [x ** 0.5]: how they treat
    NaN, zeros and infinities, and that they return nothing negative on
    arguments that are not negative. *)
Record runtime_laws (rt : Runtime) : Prop := {
  sum_NaN : forall l,
    existsb is_NaN l = true -> is_NaN (float_sum rt l) = true;
  sum_nonneg : forall l,
    forallb is_nonneg l = true -> is_nonneg (float_sum rt l) = true;
  sum_infinity : forall l,
    forallb is_nonneg l = true -> In infinity l ->
    float_sum rt l = infinity;
  sum_zeros : forall l,
    Forall (fun t => t = 0) l -> float_sum rt l = 0;
  pow_half_NaN : forall x,
    is_NaN x = true -> is_NaN (pow_half rt x) = true;
  pow_half_nonneg : forall x,
    is_nonneg x = true -> is_nonneg (pow_half rt x) = true;
  pow_half_infinity : pow_half rt infinity = infinity;
  pow_half_zero : pow_half rt 0 = 0
}.

(** [x] is a zero, a finite number or an infinity of sign [s]. *)
Definition SFsigned (s : bool) (x : spec_float) : Prop :=
  match x with
  | S754_nan => False
  | S754_zero s' | S754_infinity s' | S754_finite s' _ _ => s' = s
  end.


End Binary64.

(** ** Definitions used to state the properties *)

(** The leaf level that [MerkleTree.__init__] builds. *)
Definition padded_hashes (leaves : list Z) : list Z :=
  map Balance.poseidon_hash_single leaves
  ++ repeat (Balance.poseidon_hash_single 0)
       (2 ^ Nat.log2_up (length leaves) - length leaves).

(** The indices at which the [for] loop of a tree builder runs on a level,
    and the statement that the guard [i + 1 < len(current_level)] holds at
    each of them, so that the boundary branch is not taken. *)
Definition guard_always (has_right : list Z -> nat -> bool)
    (current_level : list Z) : Prop :=
  forall i, In i (range2 (length current_level)) ->
            has_right current_level i = true.

(** The shape of a tree of depth [d] whose levels halve exactly: [d + 1]
    levels, one node at the top, and below the top only levels with an even
    number of nodes, twice that of the next level, on which the boundary
    branch of the builder is not taken. *)
Definition halving_shape (has_right : list Z -> nat -> bool)
    (tree : list (list Z)) (d : nat) : Prop :=
  length tree = S d /\
  length (nth d tree []) = 1 /\
  forall k, k < d ->
    Nat.even (length (nth k tree [])) = true /\
    2 * length (nth (S k) tree []) = length (nth k tree []) /\
    guard_always has_right (nth k tree []).


Definition labels8 : list Z := [0; 1; 1; 0; 1; 1; 1; 0]%Z.

(** A node of the mock-hash tree is a field element. *)
Definition in_field (x : Z) : Prop := (0 <= x < Balance.PRIME)%Z.

(** A path index is a bit. *)
Definition is_bit (b : Z) : Prop := b = 0%Z \/ b = 1%Z.

(** The binary digits of [index], least significant first, [depth] of
    them. *)
Definition index_bits (index : Z) (depth : nat) : list Z :=
  map (fun k => (index / 2 ^ Z.of_nat k) mod 2)%Z (seq 0 depth).

(** One step of the recomputation of a root from a leaf of the training
    generator's tree, in the order that the path index gives: the step of
    [verify_merkle_proof] with the hash of the training generator. *)
Definition training_step (current : Z) (step : Z * Z) : Z :=
  let '(sibling, is_right) := step in
  if truthy is_right
  then Training.poseidon_hash [sibling; current]
  else Training.poseidon_hash [current; sibling].

(** * Properties *)

(** [lia] also decides goals with [/] and [mod] by a literal. *)
Ltac Zify.zify_post_hook ::= Z.to_euclidean_division_equations.

(** Case analysis on every integer comparison of the goal, closing the
    branches that contradict the hypotheses. *)
Ltac zcases :=
  repeat match goal with
    | |- context [(?a <? ?b)%Z] => destruct (Z.ltb_spec a b); try lia
    | |- context [(?a <=? ?b)%Z] => destruct (Z.leb_spec a b); try lia
    | |- context [(?a =? ?b)%Z] => destruct (Z.eqb_spec a b); try lia
    end.

(** ** Python list access *)

Section GetItem.

Context {A : Type}.
Implicit Types (l : list A) (d : A).

Lemma py_getitem_nat l (i : nat) d :
  i < length l -> py_getitem l (Z.of_nat i) = Ok (nth i l d).
Proof.
  intros H. unfold py_getitem. zcases.
  cbn [orb]. rewrite Nat2Z.id, (nth_error_nth' l d H). reflexivity.
Qed.

Lemma py_getitem_shift l (i : Z) :
  (- Z.of_nat (length l) <= i < 0)%Z ->
  py_getitem l i = py_getitem l (i + Z.of_nat (length l)).
Proof.
  intros H. unfold py_getitem. zcases; reflexivity.
Qed.

Lemma py_getitem_last (l : list A) d :
  l <> [] -> py_getitem l (-1) = Ok (last l d).
Proof.
  intros H. destruct (exists_last H) as [l' [x ->]].
  rewrite last_last, py_getitem_shift by (rewrite length_app; simpl; lia).
  rewrite length_app. simpl length.
  replace (-1 + Z.of_nat (length l' + 1))%Z with (Z.of_nat (length l')) by lia.
  rewrite (py_getitem_nat _ _ d) by (rewrite length_app; simpl; lia).
  now rewrite nth_middle.
Qed.

Lemma last_cons_ne (x : A) l d : l <> [] -> last (x :: l) d = last l d.
Proof.
  now destruct l.
Qed.

End GetItem.

Lemma half_up_bounds (k : nat) : 2 * ((k + 1) / 2) <= k + 1 /\ k <= 2 * ((k + 1) / 2).
Proof.
  pose proof (Nat.div_mod_eq (k + 1) 2) as E.
  pose proof (Nat.mod_upper_bound (k + 1) 2). lia.
Qed.

(** ** Levels that halve *)

Lemma pow2_pos (d : nat) : 0 < 2 ^ d.
Proof.
  induction d as [| d IH]; [simpl; lia | rewrite Nat.pow_succ_r'; lia].
Qed.

Lemma le_pow2_log2_up (k : nat) : k <= 2 ^ Nat.log2_up k.
Proof.
  destruct k as [| k]; [lia |].
  now apply Nat.log2_log2_up_spec; lia.
Qed.

(** [2 ^ Nat.log2_up n] is the least power of two that is at least [n]. *)
Lemma pow2_log2_up_bounds (n : nat) :
  1 <= n -> n <= 2 ^ Nat.log2_up n < 2 * n.
Proof.
  intros Hn. split; [apply le_pow2_log2_up |].
  destruct (le_lt_dec n 1) as [Hs | Hb].
  - rewrite Nat.log2_up_eqn0 by assumption. simpl. lia.
  - pose proof (Nat.log2_up_spec n Hb) as [Hlo _].
    pose proof (Nat.log2_up_pos n Hb) as Hpos.
    destruct (Nat.log2_up n) as [| k]; [lia |].
    cbn [Nat.pred] in Hlo. rewrite Nat.pow_succ_r'. lia.
Qed.

(** In a list of levels that starts with [2 ^ d] nodes and where each level
    has half the nodes of the one below (rounded up), level [k] has
    [2 ^ (d - k)] nodes. *)
Lemma halving_lengths (tree : list (list Z)) (d : nat) :
  length tree = S d ->
  length (nth 0 tree []) = 2 ^ d ->
  (forall j, S j < length tree ->
     length (nth (S j) tree []) = (length (nth j tree []) + 1) / 2) ->
  forall k, k <= d -> length (nth k tree []) = 2 ^ (d - k).
Proof.
  intros Hlen H0 Hch k. induction k as [| k IH]; intros Hk.
  - now rewrite Nat.sub_0_r.
  - rewrite Hch, IH by lia.
    replace (d - k) with (S (d - S k)) by lia.
    rewrite Nat.pow_succ_r'. lia.
Qed.

(** ** The Merkle tree of the balance generator *)

Section BalanceFacts.

Import Balance.

Lemma next_level_length (l : list Z) :
  length (next_level l) = (length l + 1) / 2.
Proof.
  unfold next_level, range2. now rewrite !length_map, length_seq.
Qed.

Lemma nth_next_level (l : list Z) (j : nat) :
  j < (length l + 1) / 2 -> nth j (next_level l) 0%Z = parent_at l (2 * j).
Proof.
  intros H. unfold next_level, range2. rewrite map_map.
  rewrite (nth_indep _ 0%Z (parent_at l (2 * 0)))
    by now rewrite length_map, length_seq.
  rewrite (map_nth (fun k => parent_at l (2 * k))).
  now rewrite seq_nth.
Qed.

Lemma build_tree_small (l : list Z) : length l <= 1 -> _build_tree l = [l].
Proof.
  intros H. rewrite _build_tree_equation_1.
  destruct (le_lt_dec (length l) 1); [reflexivity | lia].
Qed.

Lemma build_tree_step (l : list Z) :
  1 < length l -> _build_tree l = l :: _build_tree (next_level l).
Proof.
  intros H. rewrite _build_tree_equation_1.
  destruct (le_lt_dec (length l) 1); [lia | reflexivity].
Qed.

Lemma depth_loop_small (t d : nat) : t <= 1 -> depth_loop t d = d.
Proof.
  intros H. rewrite depth_loop_equation_1.
  destruct (le_lt_dec t 1); [reflexivity | lia].
Qed.

Lemma depth_loop_step (t d : nat) :
  1 < t -> depth_loop t d = depth_loop ((t + 1) / 2) (d + 1).
Proof.
  intros H. rewrite depth_loop_equation_1.
  destruct (le_lt_dec t 1); [lia | reflexivity].
Qed.

Lemma depth_loop_acc (t : nat) :
  forall d, depth_loop t d = d + depth_loop t 0.
Proof.
  induction t as [t IH] using lt_wf_ind. intros d.
  destruct (le_lt_dec t 1) as [Hs | Hb].
  - rewrite !depth_loop_small by assumption. lia.
  - rewrite !(depth_loop_step _ _ Hb).
    assert (Hlt : (t + 1) / 2 < t) by (pose proof (half_up_bounds t); lia).
    rewrite (IH _ Hlt (d + 1)), (IH _ Hlt (0 + 1)). lia.
Qed.

Lemma log2_up_half_up (t : nat) :
  1 < t -> Nat.log2_up t = S (Nat.log2_up ((t + 1) / 2)).
Proof.
  intros Ht. pose proof (half_up_bounds t) as [Hlo Hhi].
  apply Nat.log2_up_unique; [lia |].
  cbn [Nat.pred]. rewrite Nat.pow_succ_r'.
  destruct (le_lt_dec ((t + 1) / 2) 1) as [Hs | Hb].
  - rewrite (Nat.log2_up_eqn0 _ Hs). simpl. lia.
  - pose proof (Nat.log2_up_spec _ Hb) as [H1 H2].
    pose proof (Nat.log2_up_pos _ Hb) as Hpos.
    destruct (Nat.log2_up ((t + 1) / 2)) as [| k]; [lia |].
    cbn [Nat.pred] in H1. rewrite Nat.pow_succ_r' in *. lia.
Qed.

(** The depth loop computes [ceil(log2(n))]. *)
Lemma depth_loop_log2_up (t : nat) : depth_loop t 0 = Nat.log2_up t.
Proof.
  induction t as [t IH] using lt_wf_ind.
  destruct (le_lt_dec t 1) as [Hs | Hb].
  - now rewrite depth_loop_small, Nat.log2_up_eqn0.
  - rewrite (depth_loop_step _ _ Hb), depth_loop_acc, IH
      by (pose proof (half_up_bounds t); lia).
    rewrite (log2_up_half_up _ Hb). lia.
Qed.

(** The padding loop appends [hash(0)] until the length is [padded_n]. *)
Lemma pad_loop_spec (p : nat) (lh : list Z) :
  pad_loop lh p = lh ++ repeat (poseidon_hash_single 0) (p - length lh).
Proof.
  remember (p - length lh) as k eqn:Hk. revert lh Hk.
  induction k as [| k IH]; intros lh Hk; rewrite pad_loop_equation_1;
    destruct (le_lt_dec p (length lh)) as [Hs | Hb]; try lia.
  - cbn. now rewrite app_nil_r.
  - cbn. rewrite IH by (rewrite length_app; simpl; lia).
    now rewrite <- app_assoc.
Qed.

Lemma build_tree_nonempty (l : list Z) : _build_tree l <> [].
Proof.
  destruct (le_lt_dec (length l) 1) as [Hs | Hb].
  - now rewrite build_tree_small.
  - now rewrite build_tree_step.
Qed.

Lemma build_tree_head (l : list Z) : nth 0 (_build_tree l) [] = l.
Proof.
  destruct (le_lt_dec (length l) 1) as [Hs | Hb].
  - now rewrite build_tree_small.
  - now rewrite build_tree_step.
Qed.

(** The tree has one level more than the depth loop counts. *)
Lemma build_tree_length (l : list Z) :
  length (_build_tree l) = S (depth_loop (length l) 0).
Proof.
  remember (length l) as k eqn:Hk. revert l Hk.
  induction k as [k IH] using lt_wf_ind. intros l ->.
  destruct (le_lt_dec (length l) 1) as [Hs | Hb].
  - now rewrite build_tree_small, depth_loop_small.
  - rewrite (build_tree_step _ Hb), (depth_loop_step _ _ Hb). cbn [length].
    rewrite (IH (length (next_level l))); rewrite next_level_length;
      try reflexivity; [| pose proof (half_up_bounds (length l)); lia].
    rewrite (depth_loop_acc _ (0 + 1)). lia.
Qed.

(** Each level of the tree is the [next_level] of the one below. *)
Lemma build_tree_chain (l : list Z) (j : nat) :
  S j < length (_build_tree l) ->
  nth (S j) (_build_tree l) [] = next_level (nth j (_build_tree l) []).
Proof.
  remember (length l) as k eqn:Hk. revert l Hk j.
  induction k as [k IH] using lt_wf_ind. intros l -> j.
  destruct (le_lt_dec (length l) 1) as [Hs | Hb].
  - rewrite build_tree_small by assumption. simpl. lia.
  - rewrite (build_tree_step _ Hb). cbn [length nth]. intros Hj.
    destruct j as [| j].
    + now rewrite build_tree_head.
    + apply (IH (length (next_level l))); try reflexivity; [| lia].
      rewrite next_level_length. pose proof (half_up_bounds (length l)). lia.
Qed.

(** The last level of the tree has at most one node, and exactly one
    when the leaf level is not empty. *)
Lemma build_tree_last (l : list Z) :
  length (last (_build_tree l) []) = Nat.min (length l) 1.
Proof.
  remember (length l) as k eqn:Hk. revert l Hk.
  induction k as [k IH] using lt_wf_ind. intros l ->.
  destruct (le_lt_dec (length l) 1) as [Hs | Hb].
  - rewrite build_tree_small by assumption. simpl. lia.
  - rewrite (build_tree_step _ Hb).
    rewrite last_cons_ne by apply build_tree_nonempty.
    rewrite (IH (length (next_level l))); rewrite next_level_length;
      try reflexivity; pose proof (half_up_bounds (length l)); lia.
Qed.

(** At a non-negative index, the sibling index of [get_proof] is the index
    with its last bit flipped, and the sibling is the node there, or the
    node itself when that index is past the end of the level. *)
Lemma sibling_index_xor (cur : Z) :
  (0 <= cur)%Z ->
  (if truthy (cur mod 2) then cur - 1 else cur + 1)%Z = Z.lxor cur 1.
Proof.
  intros Hcur. unfold truthy.
  destruct cur as [| p | p]; [reflexivity | | lia].
  destruct p as [p | p |]; cbn [Z.lxor Pos.lxor Z.of_N Pos.Nsucc_double
                                 Pos.Ndouble]; zcases; cbn [negb]; lia.
Qed.

Lemma sibling_at_xor (lvl : list Z) (cur : Z) :
  (0 <= cur)%Z ->
  sibling_at lvl cur
  = if (Z.lxor cur 1 <? Z.of_nat (length lvl))%Z
    then py_getitem lvl (Z.lxor cur 1)
    else py_getitem lvl cur.
Proof.
  intros Hcur. unfold sibling_at. cbv zeta.
  now rewrite sibling_index_xor.
Qed.

(** One iteration of [get_proof] at a non-negative index finds the sibling
    that [_build_tree] paired the node with, and one iteration of
    [verify_merkle_proof] rebuilds the parent. *)
Lemma sibling_at_nat (lvl : list Z) (i : nat) :
  i < length lvl ->
  exists sib,
    sibling_at lvl (Z.of_nat i) = Ok sib /\
    verify_step (nth i lvl 0%Z) (sib, (Z.of_nat i mod 2)%Z)
    = nth (i / 2) (next_level lvl) 0%Z.
Proof.
  intros Hi. rewrite nth_next_level by lia.
  unfold sibling_at, verify_step, parent_at, has_right, truthy.
  destruct (Z.eqb_spec (Z.of_nat i mod 2) 0) as [Hev | Hodd]; cbn [negb].
  - replace (2 * (i / 2)) with i by lia.
    destruct (Nat.ltb_spec (i + 1) (length lvl)) as [Hr | Hr]; zcases.
    + replace (Z.of_nat i + 1)%Z with (Z.of_nat (i + 1)) by lia.
      rewrite (py_getitem_nat _ _ 0%Z Hr). eauto.
    + rewrite (py_getitem_nat _ _ 0%Z Hi). eauto.
  - replace (2 * (i / 2)) with (i - 1) by lia.
    replace (i - 1 + 1) with i by lia.
    destruct (Nat.ltb_spec i (length lvl)) as [_ | Hr]; [| lia]. zcases.
    replace (Z.of_nat i - 1)%Z with (Z.of_nat (i - 1)) by lia.
    rewrite (py_getitem_nat _ _ 0%Z) by lia. eauto.
Qed.

(** [get_proof_loop] over the levels [k, k+1, ..., k+m-1] of a tree whose
    levels are chained by [next_level]: started at a node of level [k], it
    returns [m] siblings and direction bits, and folding [verify_step] over
    them from that node reaches a node of level [k + m]. *)
Lemma get_proof_loop_nat (tree : list (list Z)) (m : nat) :
  forall (k i : nat) (s p : list Z),
    k + m < length tree ->
    (forall j, j < m ->
       nth (S (k + j)) tree [] = next_level (nth (k + j) tree [])) ->
    i < length (nth k tree []) ->
    exists s' p' i',
      get_proof_loop tree (seq k m) s p (Z.of_nat i) = Ok (s ++ s', p ++ p') /\
      length s' = m /\ length p' = m /\
      i' < length (nth (k + m) tree []) /\
      fold_left verify_step (combine s' p') (nth i (nth k tree []) 0%Z)
      = nth i' (nth (k + m) tree []) 0%Z.
Proof.
  induction m as [| m IH]; intros k i s p Hk Hch Hi.
  - exists [], [], i. cbn. rewrite !app_nil_r, Nat.add_0_r. auto.
  - cbn [seq get_proof_loop].
    rewrite (py_getitem_nat tree _ []) by lia. cbn [bind].
    destruct (sibling_at_nat _ _ Hi) as [sib [Hsib Hstep]].
    rewrite Hsib. cbn [bind].
    replace (Z.of_nat i / 2)%Z with (Z.of_nat (i / 2)) by lia.
    pose proof (Hch 0 ltac:(lia)) as Hnext. rewrite Nat.add_0_r in Hnext.
    destruct (IH (S k) (i / 2) (s ++ [sib]) (p ++ [(Z.of_nat i mod 2)%Z]))
      as [s' [p' [i' [Hloop [Hs [Hp [Hi' Hfold]]]]]]].
    + lia.
    + intros j Hj. replace (S k + j) with (k + S j) by lia. apply Hch. lia.
    + rewrite Hnext, next_level_length. lia.
    + exists (sib :: s'), ((Z.of_nat i mod 2)%Z :: p'), i'.
      rewrite Hloop, <- !app_assoc. cbn [app length combine fold_left].
      replace (k + S m) with (S k + m) by lia.
      rewrite Hstep, <- Hnext. auto.
Qed.

Lemma padded_hashes_length (leaves : list Z) :
  length (padded_hashes leaves) = 2 ^ Nat.log2_up (length leaves).
Proof.
  unfold padded_hashes. rewrite length_app, length_map, repeat_length.
  pose proof (le_pow2_log2_up (length leaves)). lia.
Qed.

Lemma nth_padded_hashes (leaves : list Z) (i : nat) :
  i < length leaves ->
  nth i (padded_hashes leaves) 0%Z = poseidon_hash_single (nth i leaves 0%Z).
Proof.
  intros Hi. unfold padded_hashes.
  rewrite app_nth1 by now rewrite length_map.
  rewrite (nth_indep _ 0%Z (poseidon_hash_single 0%Z)) by now rewrite length_map.
  apply map_nth.
Qed.

Lemma padded_tree_length (leaves : list Z) :
  length (_build_tree (padded_hashes leaves))
  = S (Nat.log2_up (length leaves)).
Proof.
  rewrite build_tree_length, padded_hashes_length, depth_loop_log2_up.
  now rewrite Nat.log2_up_pow2 by lia.
Qed.

Lemma padded_tree_top (leaves : list Z) :
  nth (Nat.log2_up (length leaves)) (_build_tree (padded_hashes leaves)) []
  = last (_build_tree (padded_hashes leaves)) [].
Proof.
  pose proof (padded_tree_length leaves) as Hlen.
  destruct (exists_last (build_tree_nonempty (padded_hashes leaves)))
    as [front [top E]].
  rewrite E in *. rewrite length_app in Hlen. simpl in Hlen.
  replace (Nat.log2_up (length leaves)) with (length front) by lia.
  now rewrite nth_middle, last_last.
Qed.

Lemma padded_tree_level_length (leaves : list Z) (k : nat) :
  k <= Nat.log2_up (length leaves) ->
  length (nth k (_build_tree (padded_hashes leaves)) [])
  = 2 ^ (Nat.log2_up (length leaves) - k).
Proof.
  apply halving_lengths.
  - apply padded_tree_length.
  - now rewrite build_tree_head, padded_hashes_length.
  - intros j Hj. now rewrite build_tree_chain, next_level_length.
Qed.

(** What [__init__] computes: it never raises, the depth is
    [ceil(log2(n))], and the root is the only node of the last level. *)
Lemma init_spec (leaves : list Z) :
  init leaves
  = Ok (mkMerkleTree leaves (length leaves) (Nat.log2_up (length leaves))
          (2 ^ Nat.log2_up (length leaves)) (padded_hashes leaves)
          (_build_tree (padded_hashes leaves))
          (nth 0 (last (_build_tree (padded_hashes leaves)) []) 0%Z)).
Proof.
  unfold init. rewrite depth_loop_log2_up, pad_loop_spec, length_map.
  fold (padded_hashes leaves).
  rewrite (py_getitem_last _ [] (build_tree_nonempty _)). cbn [bind].
  rewrite (py_getitem_nat _ 0 0%Z); [reflexivity |].
  rewrite build_tree_last, padded_hashes_length.
  pose proof (pow2_pos (Nat.log2_up (length leaves))). lia.
Qed.

(** The walk of [get_proof] from any node of the padded leaf level
    succeeds, and the steps it records lead [verify_merkle_proof] from that
    node to the root. *)
Lemma padded_walk (leaves : list Z) (i : nat) :
  let d := Nat.log2_up (length leaves) in
  let tree := _build_tree (padded_hashes leaves) in
  i < 2 ^ d ->
  exists s p,
    get_proof_loop tree (seq 0 d) [] [] (Z.of_nat i) = Ok (s, p) /\
    length s = d /\ length p = d /\
    fold_left verify_step (combine s p) (nth i (padded_hashes leaves) 0%Z)
    = nth 0 (last tree []) 0%Z.
Proof.
  intros d tree Hi.
  destruct (get_proof_loop_nat tree d 0 i [] [])
    as [s [p [i' [Hloop [Hs [Hp [Hi' Hfold]]]]]]].
  - unfold tree, d. rewrite padded_tree_length. lia.
  - intros j Hj. apply build_tree_chain.
    unfold tree. rewrite padded_tree_length. fold d. lia.
  - unfold tree. now rewrite build_tree_head, padded_hashes_length.
  - exists s, p. cbn [app] in Hloop. cbn [Nat.add] in Hi', Hfold.
    unfold tree, d in Hi', Hfold. rewrite padded_tree_top in Hi', Hfold.
    rewrite build_tree_head in Hfold.
    rewrite build_tree_last, padded_hashes_length in Hi'.
    replace i' with 0 in Hfold by lia. auto.
Qed.

(** On a level with an even number of nodes, a negative index and the
    non-negative index of the same node find the same sibling. *)
Lemma sibling_at_shift (lvl : list Z) (cur : Z) :
  (Z.of_nat (length lvl) mod 2 = 0)%Z ->
  (- Z.of_nat (length lvl) <= cur < 0)%Z ->
  sibling_at lvl cur = sibling_at lvl (cur + Z.of_nat (length lvl)).
Proof.
  intros Hev Hcur. unfold sibling_at, truthy.
  replace ((cur + Z.of_nat (length lvl)) mod 2)%Z with (cur mod 2)%Z by lia.
  destruct (Z.eqb_spec (cur mod 2) 0) as [Hz | Hnz]; cbn [negb]; zcases.
  - rewrite py_getitem_shift by lia. f_equal. lia.
  - rewrite py_getitem_shift by lia. f_equal. lia.
Qed.

(** On levels of [2 ^ e], [2 ^ (e - 1)], ... nodes, the whole walk of
    [get_proof] from a negative index is the walk from the non-negative
    index of the same node. *)
Lemma get_proof_loop_shift (tree : list (list Z)) (m : nat) :
  forall (k e : nat) (s p : list Z) (cur : Z),
    k + m <= length tree ->
    m <= e ->
    (forall j, j < m -> length (nth (k + j) tree []) = 2 ^ (e - j)) ->
    (- Z.of_nat (2 ^ e) <= cur < 0)%Z ->
    get_proof_loop tree (seq k m) s p cur
    = get_proof_loop tree (seq k m) s p (cur + Z.of_nat (2 ^ e)).
Proof.
  induction m as [| m IH]; intros k e s p cur Hk Hme Hlen Hcur;
    [reflexivity |].
  destruct e as [| e]; [lia |].
  pose proof (Hlen 0 ltac:(lia)) as Hl0.
  rewrite Nat.add_0_r, Nat.sub_0_r in Hl0.
  assert (Hpow : 2 ^ S e = 2 * 2 ^ e) by apply Nat.pow_succ_r'.
  cbn [seq get_proof_loop].
  rewrite (py_getitem_nat tree _ []) by lia. cbn [bind].
  replace ((cur + Z.of_nat (2 ^ S e)) mod 2)%Z with (cur mod 2)%Z by lia.
  rewrite <- Hl0, <- sibling_at_shift by lia.
  destruct (sibling_at (nth k tree []) cur) as [sib | err]; cbn [bind];
    [| reflexivity].
  rewrite Hl0.
  replace ((cur + Z.of_nat (2 ^ S e)) / 2)%Z
    with (cur / 2 + Z.of_nat (2 ^ e))%Z by lia.
  apply IH; try lia.
  intros j Hj. replace (S k + j) with (k + S j) by lia.
  rewrite Hlen by lia. f_equal.
Qed.

End BalanceFacts.

(** ** Tree builders that halve a power of two *)

Lemma range2_guard (len i : nat) :
  Nat.even len = true -> In i (range2 len) -> i + 1 < len.
Proof.
  intros Hev Hin. apply Nat.even_spec in Hev. destruct Hev as [m ->].
  unfold range2 in Hin. apply in_map_iff in Hin.
  destruct Hin as [k [<- Hk]]. apply in_seq in Hk. lia.
Qed.

Lemma pow2_even (e : nat) : Nat.even (2 ^ S e) = true.
Proof.
  apply Nat.even_spec. exists (2 ^ e). apply Nat.pow_succ_r'.
Qed.

Section HalvingLoop.

(** A builder of levels, seen through the equations of its [while] loop and
    the length of what one pass of its [for] loop returns. *)
Variable next : list Z -> list Z.
Variable build : list Z -> list (list Z).

Hypothesis next_length : forall l, length (next l) = (length l + 1) / 2.
Hypothesis build_small : forall l, length l <= 1 -> build l = [l].
Hypothesis build_step :
  forall l, 1 < length l -> build l = l :: build (next l).

Lemma pow2_levels (d : nat) :
  forall l, length l = 2 ^ d ->
    length (build l) = S d /\
    forall k, k <= d -> length (nth k (build l) []) = 2 ^ (d - k).
Proof.
  induction d as [| d IH]; intros l Hl.
  - rewrite build_small by (simpl in Hl; lia). split; [reflexivity |].
    intros k Hk. replace k with 0 by lia. exact Hl.
  - pose proof (pow2_pos d) as Hpos.
    rewrite Nat.pow_succ_r' in Hl.
    rewrite build_step by lia.
    destruct (IH (next l)) as [Hlen Hlev].
    { rewrite next_length, Hl. lia. }
    split; [simpl; now rewrite Hlen |].
    intros [| k] Hk.
    + rewrite Nat.sub_0_r, Nat.pow_succ_r'. exact Hl.
    + cbn [nth]. rewrite Hlev by lia. reflexivity.
Qed.

(** Every level below the top has an even number of nodes, twice that of
    the next level, and the top level has one node. *)
Lemma pow2_levels_shape (d : nat) (l : list Z) :
  length l = 2 ^ d ->
  length (build l) = S d /\
  length (nth d (build l) []) = 1 /\
  forall k, k < d ->
    Nat.even (length (nth k (build l) [])) = true /\
    2 * length (nth (S k) (build l) []) = length (nth k (build l) []) /\
    forall i, In i (range2 (length (nth k (build l) []))) ->
              i + 1 < length (nth k (build l) []).
Proof.
  intros Hl. destruct (pow2_levels d l Hl) as [Hlen Hlev].
  split; [exact Hlen |]. split.
  - rewrite Hlev by lia. now rewrite Nat.sub_diag.
  - intros k Hk. rewrite !Hlev by lia.
    replace (d - k) with (S (d - S k)) by lia.
    split; [apply pow2_even |]. split; [now rewrite Nat.pow_succ_r' |].
    intros i. apply range2_guard, pow2_even.
Qed.

End HalvingLoop.

(** ** The Merkle tree of the training generator *)

Section TrainingFacts.

Import Training.

Lemma training_next_level_length (l : list Z) :
  length (next_level l) = (length l + 1) / 2.
Proof.
  unfold next_level, range2. now rewrite !length_map, length_seq.
Qed.

Lemma build_levels_small (l : list Z) : length l <= 1 -> build_levels l = [l].
Proof.
  intros H. rewrite build_levels_equation_1.
  destruct (le_lt_dec (length l) 1); [reflexivity | lia].
Qed.

Lemma build_levels_step (l : list Z) :
  1 < length l -> build_levels l = l :: build_levels (next_level l).
Proof.
  intros H. rewrite build_levels_equation_1.
  destruct (le_lt_dec (length l) 1); [lia | reflexivity].
Qed.

Lemma build_levels_head (l : list Z) : nth 0 (build_levels l) [] = l.
Proof.
  destruct (le_lt_dec (length l) 1) as [Hs | Hb].
  - now rewrite build_levels_small.
  - now rewrite build_levels_step.
Qed.

(** The size loop, started from a power of two that is not yet too large,
    stops at the least power of two that is at least [n]. *)
Lemma size_loop_pow2 (n : nat) :
  forall (gap : nat) (size : positive) (depth : nat),
    n - Pos.to_nat size = gap ->
    Pos.to_nat size = 2 ^ depth ->
    (depth = 0 \/ 2 ^ Nat.pred depth < n) ->
    exists size',
      size_loop n size depth = (size', Nat.log2_up n) /\
      Pos.to_nat size' = 2 ^ Nat.log2_up n.
Proof.
  induction gap as [gap IH] using lt_wf_ind.
  intros size depth Hgap Hsize Hinv. rewrite size_loop_equation_1.
  destruct (le_lt_dec n (Pos.to_nat size)) as [Hs | Hb]; cbn.
  - assert (Hd : Nat.log2_up n = depth).
    { destruct Hinv as [-> | Hlt].
      - apply Nat.log2_up_eqn0. simpl in Hsize. lia.
      - destruct depth as [| depth]; [simpl in *; lia |].
        apply Nat.log2_up_unique; [lia |]. split; [exact Hlt | lia]. }
    rewrite Hd. eauto.
  - apply (IH (n - Pos.to_nat (size * 2))).
    + rewrite Pos2Nat.inj_mul. change (Pos.to_nat 2) with 2. lia.
    + reflexivity.
    + rewrite Pos2Nat.inj_mul, Hsize. change (Pos.to_nat 2) with 2.
      replace (depth + 1) with (S depth) by lia.
      rewrite Nat.pow_succ_r'. lia.
    + right. replace (depth + 1) with (S depth) by lia. cbn [Nat.pred]. lia.
Qed.

Lemma size_loop_spec (n : nat) :
  exists size,
    size_loop n 1 0 = (size, Nat.log2_up n) /\
    Pos.to_nat size = 2 ^ Nat.log2_up n.
Proof.
  apply (size_loop_pow2 n (n - Pos.to_nat 1) 1 0); auto.
Qed.

Lemma padded_leaves_spec (leaves : list Z) :
  padded_leaves leaves
  = leaves ++ repeat 0%Z (2 ^ Nat.log2_up (length leaves) - length leaves).
Proof.
  unfold padded_leaves.
  destruct (size_loop_spec (length leaves)) as [size [-> Hsize]].
  now rewrite Hsize.
Qed.

Lemma padded_leaves_length (leaves : list Z) :
  length (padded_leaves leaves) = 2 ^ Nat.log2_up (length leaves).
Proof.
  rewrite padded_leaves_spec, length_app, repeat_length.
  pose proof (le_pow2_log2_up (length leaves)). lia.
Qed.

End TrainingFacts.

(** ** Decimal strings *)

(** [int(str(z))] is [z]. *)
Lemma py_int_of_str_py_str (z : Z) : py_int_of_str (py_str z) = Ok z.
Proof.
  unfold py_int_of_str, py_str.
  rewrite DecimalString.NilZero.isi.
  - now rewrite DecimalZ.of_to.
  - destruct z; simpl; try discriminate.
    intros [= H]. now apply DecimalPos.Unsigned.to_uint_nonnil in H.
  - destruct z; simpl; try discriminate.
    intros [= H]. now apply DecimalPos.Unsigned.to_uint_nonnil in H.
Qed.

(** ** The gradient over the reals *)

Section NumericFacts.

Import Numeric.
Local Open Scope R_scope.

(** Sums and dot products *)







End NumericFacts.


(** ** Binary64 arithmetic *)

Section Binary64Facts.
Import PrimFloat SpecFloat FloatOps FloatAxioms.
Import Binary64.
Local Open Scope float_scope.

(** *** Rounding keeps the sign *)

Lemma shr_1_nonneg (r : shr_record) :
  (0 <= shr_m r)%Z -> (0 <= shr_m (shr_1 r))%Z.
Proof.
  destruct r as [m r s]. cbn [shr_m]. intros Hm.
  destruct m as [| [p | p |] | p]; cbn; lia.
Qed.

Lemma iter_pos_shr_1_nonneg (p : positive) :
  forall r, (0 <= shr_m r)%Z -> (0 <= shr_m (iter_pos shr_1 p r))%Z.
Proof.
  induction p as [p IH | p IH |]; intros r Hr; cbn [iter_pos].
  - apply IH, IH, shr_1_nonneg, Hr.
  - apply IH, IH, Hr.
  - apply shr_1_nonneg, Hr.
Qed.

Lemma shr_fexp_nonneg (m e : Z) (l : location) :
  (0 <= m)%Z -> (0 <= shr_m (fst (shr_fexp prec emax m e l)))%Z.
Proof.
  intros Hm. unfold shr_fexp, shr.
  assert (H0 : (0 <= shr_m (shr_record_of_loc m l))%Z)
    by (destruct l as [| []]; exact Hm).
  destruct (fexp prec emax (Zdigits2 m + e) - e)%Z; cbn [fst]; try exact H0.
  now apply iter_pos_shr_1_nonneg.
Qed.

Lemma round_nearest_even_nonneg (m : Z) (l : location) :
  (0 <= m)%Z -> (0 <= round_nearest_even m l)%Z.
Proof.
  intros Hm. unfold round_nearest_even.
  destruct l as [| []]; try destruct (Z.even m); lia.
Qed.

Lemma binary_round_aux_signed (s : bool) (m e : Z) (l : location) :
  (0 <= m)%Z -> SFsigned s (binary_round_aux prec emax s m e l).
Proof.
  intros Hm. unfold binary_round_aux.
  pose proof (shr_fexp_nonneg m e l Hm) as H1.
  destruct (shr_fexp prec emax m e l) as [mrs' e']. cbn [fst] in H1.
  pose proof (shr_fexp_nonneg _ e' loc_Exact
                (round_nearest_even_nonneg _ (loc_of_shr_record mrs') H1)) as H2.
  destruct (shr_fexp prec emax
              (round_nearest_even (shr_m mrs') (loc_of_shr_record mrs'))
              e' loc_Exact) as [mrs'' e''].
  cbn [fst] in H2.
  destruct (shr_m mrs'') as [| p | p]; [reflexivity | | lia].
  destruct (e'' <=? emax - prec)%Z; reflexivity.
Qed.

Lemma binary_round_signed (s : bool) (m : positive) (e : Z) :
  SFsigned s (binary_round prec emax s m e).
Proof.
  unfold binary_round.
  destruct (shl_align m e (fexp prec emax (Z.pos (digits2_pos m) + e)))
    as [mz ez].
  apply binary_round_aux_signed. lia.
Qed.

Lemma SFmul_square_signed (x : spec_float) :
  x <> S754_nan -> SFsigned false (SFmul prec emax x x).
Proof.
  destruct x as [s | s | | s m e]; intros Hx; cbn [SFmul];
    rewrite ?Bool.xorb_nilpotent; try reflexivity; try congruence.
  apply binary_round_aux_signed. lia.
Qed.

Lemma SFadd_signed (x y : spec_float) :
  SFsigned false x -> SFsigned false y ->
  SFsigned false (SFadd prec emax x y).
Proof.
  destruct x as [sx | sx | | sx mx ex], y as [sy | sy | | sy my ey];
    cbn [SFsigned]; intros Hx Hy; subst; cbn [SFadd SFsigned];
    try reflexivity; try contradiction.
  unfold cond_Zopp, binary_normalize.
  destruct (Z.pos _ + Z.pos _)%Z as [| p | p] eqn:E; try lia;
    try reflexivity.
  apply binary_round_signed.
Qed.

Lemma SFsqrt_signed (x : spec_float) :
  SFsigned false x -> SFsigned false (SFsqrt prec emax x).
Proof.
  destruct x as [s | s | | s m e]; cbn [SFsigned]; intros Hx; subst;
    cbn [SFsqrt SFsigned]; try reflexivity; try contradiction.
  unfold SFsqrt_core_binary.
  set (m' := match _ with Z.pos _ => _ | _ => _ end).
  pose proof (Z.sqrtrem_sqrt m') as Hq.
  destruct (Z.sqrtrem m') as [q r]. cbn [fst] in Hq.
  apply binary_round_aux_signed. rewrite Hq. apply Z.sqrt_nonneg.
Qed.



(** *** Classification of floats *)

Lemma Prim2SF_zero : Prim2SF 0 = S754_zero false.
Proof. reflexivity. Qed.

Lemma Prim2SF_infinity : Prim2SF infinity = S754_infinity false.
Proof. reflexivity. Qed.

Lemma is_nonneg_signed (x : float) :
  is_nonneg x = true <-> SFsigned false (Prim2SF x).
Proof.
  unfold is_nonneg. destruct (Prim2SF x) as [[] | [] | | [] m e]; cbn;
    intuition congruence.
Qed.

Lemma is_nonneg_not_NaN (x : float) : is_nonneg x = true -> is_NaN x = false.
Proof.
  unfold is_nonneg, is_NaN. now destruct (Prim2SF x).
Qed.


Lemma eq_infinity (x : float) : Prim2SF x = S754_infinity false -> x = infinity.
Proof.
  intros H. apply Prim2SF_inj. now rewrite H.
Qed.

(** *** Squares, sums and the norm *)

Lemma square_NaN (c : float) : is_NaN (c * c) = is_NaN c.
Proof.
  unfold is_NaN. rewrite mul_spec. unfold SF64mul.
  destruct (Prim2SF c) as [s | s | | s m e] eqn:E; try reflexivity.
  pose proof (SFmul_square_signed (S754_finite s m e) ltac:(discriminate)) as H.
  now destruct (SFmul prec emax (S754_finite s m e) (S754_finite s m e)).
Qed.

Lemma square_nonneg (c : float) : is_NaN c = false -> is_nonneg (c * c) = true.
Proof.
  unfold is_NaN. intros H. apply is_nonneg_signed. rewrite mul_spec.
  apply SFmul_square_signed. now destruct (Prim2SF c).
Qed.

Lemma add_NaN_l (a t : float) : is_NaN a = true -> is_NaN (a + t) = true.
Proof.
  unfold is_NaN. rewrite add_spec. unfold SF64add.
  now destruct (Prim2SF a).
Qed.

Lemma add_NaN_r (a t : float) : is_NaN t = true -> is_NaN (a + t) = true.
Proof.
  unfold is_NaN. rewrite add_spec. unfold SF64add.
  destruct (Prim2SF t); try discriminate. now destruct (Prim2SF a).
Qed.

Lemma add_nonneg (a t : float) :
  is_nonneg a = true -> is_nonneg t = true -> is_nonneg (a + t) = true.
Proof.
  rewrite !is_nonneg_signed, add_spec. apply SFadd_signed.
Qed.

Lemma add_infinity_l (t : float) :
  is_nonneg t = true -> infinity + t = infinity.
Proof.
  intros H. apply eq_infinity. rewrite add_spec, Prim2SF_infinity.
  unfold is_nonneg in H. unfold SF64add.
  now destruct (Prim2SF t) as [[] | [] | | [] m e].
Qed.

Lemma add_infinity_r (a : float) :
  is_nonneg a = true -> a + infinity = infinity.
Proof.
  intros H. apply eq_infinity. rewrite add_spec, Prim2SF_infinity.
  unfold is_nonneg in H. unfold SF64add.
  now destruct (Prim2SF a) as [[] | [] | | [] m e].
Qed.

Lemma fold_add_NaN (l : list float) :
  forall a, is_NaN a = true \/ existsb is_NaN l = true ->
            is_NaN (fold_left add l a) = true.
Proof.
  induction l as [| t l IH]; intros a [Ha | Hl]; cbn [fold_left existsb] in *;
    try assumption; try discriminate.
  - apply IH. left. now apply add_NaN_l.
  - apply Bool.orb_true_iff in Hl as [Ht | Hl].
    + apply IH. left. now apply add_NaN_r.
    + apply IH. now right.
Qed.

Lemma fold_add_nonneg (l : list float) :
  forall a, is_nonneg a = true -> forallb is_nonneg l = true ->
            is_nonneg (fold_left add l a) = true.
Proof.
  induction l as [| t l IH]; intros a Ha Hl; cbn [fold_left forallb] in *;
    [assumption |].
  apply Bool.andb_true_iff in Hl as [Ht Hl].
  apply IH; [now apply add_nonneg | assumption].
Qed.

Lemma fold_add_from_infinity (l : list float) :
  forallb is_nonneg l = true -> fold_left add l infinity = infinity.
Proof.
  induction l as [| t l IH]; intros Hl; cbn [fold_left forallb] in *;
    [reflexivity |].
  apply Bool.andb_true_iff in Hl as [Ht Hl].
  rewrite add_infinity_l by assumption. now apply IH.
Qed.

Lemma fold_add_infinity (l : list float) :
  forall a, is_nonneg a = true -> forallb is_nonneg l = true ->
            In infinity l -> fold_left add l a = infinity.
Proof.
  induction l as [| t l IH]; intros a Ha Hl Hin; cbn [fold_left forallb] in *;
    [contradiction |].
  apply Bool.andb_true_iff in Hl as [Ht Hl]. destruct Hin as [-> | Hin].
  - rewrite add_infinity_r by assumption. now apply fold_add_from_infinity.
  - apply IH; [now apply add_nonneg | assumption | assumption].
Qed.

Lemma fold_add_zeros (l : list float) :
  Forall (fun t => t = 0) l -> fold_left add l 0 = 0.
Proof.
  induction 1 as [| t l -> _ IH]; cbn [fold_left]; [reflexivity |].
  exact IH.
Qed.

Lemma sqrt_NaN (x : float) : is_NaN x = true -> is_NaN (sqrt x) = true.
Proof.
  unfold is_NaN. rewrite sqrt_spec. unfold SF64sqrt.
  now destruct (Prim2SF x).
Qed.

Lemma sqrt_nonneg (x : float) : is_nonneg x = true -> is_nonneg (sqrt x) = true.
Proof.
  rewrite !is_nonneg_signed, sqrt_spec. apply SFsqrt_signed.
Qed.

(** Left-to-right addition and the square root have the properties that
    the statements use. *)
Lemma reference_laws : runtime_laws reference.
Proof.
  constructor; cbn [float_sum pow_half reference]; unfold py_sum.
  - intros l Hl. apply fold_add_NaN. now right.
  - intros l Hl. now apply fold_add_nonneg.
  - intros l Hl Hin. now apply fold_add_infinity.
  - apply fold_add_zeros.
  - apply sqrt_NaN.
  - apply sqrt_nonneg.
  - reflexivity.
  - reflexivity.
Qed.

Lemma squares_NaN (v : list float) :
  existsb is_NaN (map (fun c => c * c) v) = existsb is_NaN v.
Proof.
  induction v as [| c v IH]; cbn [map existsb]; [reflexivity |].
  now rewrite square_NaN, IH.
Qed.

Lemma squares_nonneg (v : list float) :
  existsb is_NaN v = false ->
  forallb is_nonneg (map (fun c => c * c) v) = true.
Proof.
  induction v as [| c v IH]; cbn [map existsb forallb]; [reflexivity |].
  intros H. apply Bool.orb_false_iff in H as [Hc Hv].
  now rewrite square_nonneg, IH.
Qed.

Section Norm.

Variable rt : Runtime.
Hypothesis laws : runtime_laws rt.

(** The norm is NaN exactly when a component is NaN; otherwise it is [+0.0],
    a positive number or [+inf]. *)
Lemma l2_norm_nonneg (v : list float) :
  existsb is_NaN v = false -> is_nonneg (compute_l2_norm rt v) = true.
Proof.
  intros E. unfold compute_l2_norm.
  apply (pow_half_nonneg rt laws), (sum_nonneg rt laws).
  now apply squares_nonneg.
Qed.

Lemma l2_norm_NaN (v : list float) :
  is_NaN (compute_l2_norm rt v) = existsb is_NaN v.
Proof.
  destruct (existsb is_NaN v) eqn:E.
  - unfold compute_l2_norm.
    apply (pow_half_NaN rt laws), (sum_NaN rt laws). now rewrite squares_NaN.
  - now apply is_nonneg_not_NaN, l2_norm_nonneg.
Qed.


(** Squares that are all zero, as those of components that underflow, make
    the norm zero. *)
Lemma l2_norm_underflow (v : list float) :
  Forall (fun c => c * c = 0) v -> compute_l2_norm rt v = 0.
Proof.
  intros H. unfold compute_l2_norm.
  rewrite (sum_zeros rt laws); [apply (pow_half_zero rt laws) |].
  now apply Forall_map.
Qed.

End Norm.

(** *** Comparisons *)



Lemma ltb_NaN_r (a b : float) : is_NaN b = true -> (a <? b) = false.
Proof.
  unfold is_NaN. intros Hb. rewrite ltb_spec.
  destruct (Prim2SF b); try discriminate. now destruct (Prim2SF a).
Qed.

Lemma leb_NaN_l (a b : float) : is_NaN a = true -> (a <=? b) = false.
Proof.
  unfold is_NaN. intros Hb. rewrite leb_spec.
  now destruct (Prim2SF a).
Qed.







(** A threshold that is not positive lies below every norm that is not
    zero. *)
Lemma below_nonpositive (tau g : float) :
  (tau <=? 0) = true -> is_nonneg g = true ->
  (tau <? g) = (if g =? 0 then tau <? 0 else true).
Proof.
  rewrite leb_spec, !ltb_spec, eqb_spec, Prim2SF_zero. unfold is_nonneg.
  destruct (Prim2SF tau) as [[] | [] | | [] mt et]; try discriminate;
    destruct (Prim2SF g) as [[] | [] | | [] mg eg]; try discriminate;
    reflexivity.
Qed.

Lemma nonpositive_cases (tau : float) :
  (tau <=? 0) = true -> (tau =? 0) = negb (tau <? 0).
Proof.
  rewrite leb_spec, eqb_spec, ltb_spec, Prim2SF_zero.
  now destruct (Prim2SF tau) as [[] | [] | | [] mt et].
Qed.

Lemma eqb_zero_not_NaN (g : float) : (g =? 0) = true -> is_NaN g = false.
Proof.
  rewrite eqb_spec, Prim2SF_zero. unfold is_NaN.
  now destruct (Prim2SF g).
Qed.

Lemma zero_not_below_zero (tau : float) :
  (tau =? 0) = true -> (tau <? 0) = false.
Proof.
  rewrite eqb_spec, ltb_spec, Prim2SF_zero.
  now destruct (Prim2SF tau) as [[] | [] | | [] mt et].
Qed.

(** *** The norm of a vector multiplied by zero *)



(** *** The three outcomes of [clip_gradient] *)

Lemma clip_gradient_small (rt : Runtime) (v : list float) (tau : float) :
  (tau <? compute_l2_norm rt v) = false -> clip_gradient rt v tau = Ok v.
Proof.
  intros H. unfold clip_gradient. now rewrite H.
Qed.

Lemma clip_gradient_large (rt : Runtime) (v : list float) (tau : float) :
  (tau <? compute_l2_norm rt v) = true ->
  (compute_l2_norm rt v =? 0) = false ->
  clip_gradient rt v tau
  = Ok (map (fun c => tau / compute_l2_norm rt v * c) v).
Proof.
  intros H Hnz. unfold clip_gradient, py_div. now rewrite H, Hnz.
Qed.

Lemma clip_gradient_zero_norm (rt : Runtime) (v : list float) (tau : float) :
  (tau <? compute_l2_norm rt v) = true ->
  (compute_l2_norm rt v =? 0) = true ->
  clip_gradient rt v tau = Raise ZeroDivisionError.
Proof.
  intros H Hz. unfold clip_gradient, py_div. now rewrite H, Hz.
Qed.

(** *** [int] of a float *)



(** Rounding does not look at the sign, so the product with 1000 and the
    truncation commute with the change of sign. *)
Lemma binary_round_aux_opp (s : bool) (m e : Z) (l : location) :
  binary_round_aux prec emax (negb s) m e l
  = SFopp (binary_round_aux prec emax s m e l).
Proof.
  unfold binary_round_aux.
  destruct (shr_fexp prec emax m e l) as [mrs' e'].
  destruct (shr_fexp prec emax
              (round_nearest_even (shr_m mrs') (loc_of_shr_record mrs'))
              e' loc_Exact) as [mrs'' e''].
  destruct (shr_m mrs'') as [| p | p]; try reflexivity.
  now destruct (e'' <=? emax - prec)%Z.
Qed.

Lemma scaled_opp (x : float) :
  Prim2SF ((- x) * PRECISION) = SFopp (Prim2SF (x * PRECISION)).
Proof.
  rewrite !mul_spec, opp_spec. unfold SF64mul.
  change (Prim2SF PRECISION) with (S754_finite false 8796093022208000 (-43)).
  destruct (Prim2SF x) as [s | s | | s m e]; cbn [SFopp SFmul];
    rewrite ?Bool.xorb_false_r; try reflexivity.
  apply binary_round_aux_opp.
Qed.

Lemma py_int_opp (a b : float) :
  Prim2SF a = SFopp (Prim2SF b) ->
  py_int a = (k <- py_int b ;; Ok (- k)%Z).
Proof.
  unfold py_int. intros ->.
  destruct (Prim2SF b) as [s | s | | s m e]; cbn [SFopp bind];
    try reflexivity.
  destruct s; cbn [negb]; f_equal; lia.
Qed.

End Binary64Facts.

(** ** Further facts about the balance generator *)

Lemma py_getitem_In {A : Type} (l : list A) (i : Z) (x : A) :
  py_getitem l i = Ok x -> In x l.
Proof.
  unfold py_getitem.
  destruct (_ || _)%bool; [discriminate |].
  destruct (nth_error l _) as [y |] eqn:E; [| discriminate].
  intros [= <-]. eapply nth_error_In, E.
Qed.

Lemma map_result_ok {A B : Type} (f : A -> result B) (g : A -> B)
    (l : list A) :
  (forall x, In x l -> f x = Ok (g x)) -> map_result f l = Ok (map g l).
Proof.
  induction l as [| x l IH]; intros H; [reflexivity |].
  cbn [map_result map]. rewrite (H x (or_introl eq_refl)). cbn [bind].
  rewrite IH by (intros y Hy; apply H; now right). reflexivity.
Qed.

Lemma map_result_parse (l : list Z) :
  map_result py_int_of_str (map py_str l) = Ok l.
Proof.
  induction l as [| z l IH]; [reflexivity |].
  cbn [map map_result]. rewrite py_int_of_str_py_str. cbn [bind].
  now rewrite IH.
Qed.

Lemma map_result_parse_nested (ll : list (list Z)) (i : nat) :
  i < length ll ->
  exists strs,
    py_getitem (map (map py_str) ll) (Z.of_nat i) = Ok strs /\
    map_result py_int_of_str strs = Ok (nth i ll []).
Proof.
  intros Hi. exists (map py_str (nth i ll [])). split.
  - rewrite (py_getitem_nat _ _ (map py_str [])) by now rewrite length_map.
    now rewrite (map_nth (map py_str)).
  - apply map_result_parse.
Qed.

Lemma nth_map_fst (l : list (list Z * list Z)) (i : nat) :
  nth i (map fst l) [] = fst (nth i l ([], [])).
Proof.
  exact (map_nth fst l ([], []) i).
Qed.

Lemma nth_map_snd (l : list (list Z * list Z)) (i : nat) :
  nth i (map snd l) [] = snd (nth i l ([], [])).
Proof.
  exact (map_nth snd l ([], []) i).
Qed.

Section BalanceMore.

Import Balance.

Lemma prime_pos : (0 < PRIME)%Z.
Proof.
  reflexivity.
Qed.

Lemma poseidon_mock_in_field (inputs : list Z) : in_field (poseidon_mock inputs).
Proof.
  apply Z.mod_pos_bound, prime_pos.
Qed.

(** The mock hash of a pair only depends on the sum of the pair. *)
Lemma poseidon_hash_pair_comm (a b : Z) :
  poseidon_hash_pair a b = poseidon_hash_pair b a.
Proof.
  unfold poseidon_hash_pair, poseidon_mock, py_sum. cbn [fold_left].
  f_equal. lia.
Qed.

Lemma next_level_in_field (l : list Z) : Forall in_field (next_level l).
Proof.
  apply Forall_forall. intros x Hx. unfold next_level in Hx.
  apply in_map_iff in Hx. destruct Hx as [i [<- _]].
  apply poseidon_mock_in_field.
Qed.

Lemma build_tree_in_field (l : list Z) :
  Forall in_field l -> Forall (Forall in_field) (_build_tree l).
Proof.
  remember (length l) as k eqn:Hk. revert l Hk.
  induction k as [k IH] using lt_wf_ind. intros l -> Hl.
  destruct (le_lt_dec (length l) 1) as [Hs | Hb].
  - rewrite build_tree_small by assumption. now constructor.
  - rewrite (build_tree_step _ Hb). constructor; [exact Hl |].
    apply (IH (length (next_level l))); try reflexivity.
    + rewrite next_level_length. pose proof (half_up_bounds (length l)). lia.
    + apply next_level_in_field.
Qed.

Lemma padded_hashes_in_field (leaves : list Z) :
  Forall in_field (padded_hashes leaves).
Proof.
  unfold padded_hashes. apply Forall_app. split.
  - apply Forall_forall. intros x Hx. apply in_map_iff in Hx.
    destruct Hx as [v [<- _]]. apply poseidon_mock_in_field.
  - apply Forall_forall. intros x Hx. apply repeat_spec in Hx. subst x.
    apply poseidon_mock_in_field.
Qed.

(** What a successful run of the loop of [get_proof] has recorded: the
    binary digits of the index it started from and, level by level, the
    sibling of the node whose index is the start index shifted right. *)
Lemma get_proof_loop_trace (tree : list (list Z)) (m : nat) :
  forall (k : nat) (s p : list Z) (cur : Z) (s' p' : list Z),
    get_proof_loop tree (seq k m) s p cur = Ok (s', p') ->
    exists sl,
      s' = s ++ sl /\ p' = p ++ index_bits cur m /\ length sl = m /\
      forall j, j < m ->
        exists lvl,
          py_getitem tree (Z.of_nat (k + j)) = Ok lvl /\
          sibling_at lvl (cur / 2 ^ Z.of_nat j) = Ok (nth j sl 0%Z).
Proof.
  induction m as [| m IH]; intros k s p cur s' p' H.
  - cbn in H. injection H as <- <-. exists []. unfold index_bits. cbn.
    rewrite !app_nil_r. repeat split; auto. intros j Hj. lia.
  - cbn [seq get_proof_loop] in H.
    destruct (py_getitem tree (Z.of_nat k)) as [lvl | e] eqn:Hlvl;
      [| discriminate]. cbn [bind] in H.
    destruct (sibling_at lvl cur) as [sib | e] eqn:Hsib; [| discriminate].
    cbn [bind] in H.
    destruct (IH _ _ _ _ _ _ H) as [sl [-> [-> [Hlen Hall]]]].
    exists (sib :: sl). rewrite <- !app_assoc. cbn [app length].
    split; [reflexivity |]. split; [| split; [now rewrite Hlen |]].
    + f_equal. unfold index_bits. cbn [seq map]. f_equal.
      * now rewrite Z.pow_0_r, Z.div_1_r.
      * rewrite <- seq_shift, map_map. apply map_ext. intros j.
        rewrite Nat2Z.inj_succ, Z.pow_succ_r, Z.div_div by lia. reflexivity.
    + intros [| j] Hj.
      * exists lvl. rewrite Nat.add_0_r, Z.pow_0_r, Z.div_1_r. auto.
      * destruct (Hall j ltac:(lia)) as [lvl' [Hl' Hs']].
        exists lvl'. replace (k + S j) with (S k + j) by lia.
        split; [exact Hl' |]. cbn [nth].
        rewrite Nat2Z.inj_succ, Z.pow_succ_r, <- Z.div_div by lia. exact Hs'.
Qed.

Lemma sibling_at_In (lvl : list Z) (cur sib : Z) :
  sibling_at lvl cur = Ok sib -> In sib lvl.
Proof.
  unfold sibling_at. cbv zeta.
  destruct (_ <? _)%Z; apply py_getitem_In.
Qed.

Lemma index_bits_are_bits (index : Z) (depth : nat) :
  Forall is_bit (index_bits index depth).
Proof.
  apply Forall_forall. intros b Hb. unfold index_bits in Hb.
  apply in_map_iff in Hb. destruct Hb as [k [<- _]]. unfold is_bit. lia.
Qed.

Lemma index_bits_length (index : Z) (depth : nat) :
  length (index_bits index depth) = depth.
Proof.
  unfold index_bits. now rewrite length_map, length_seq.
Qed.

(** The walk of [get_proof] succeeds from every index that Python accepts
    for the padded leaf level, negative or not. *)
Lemma get_proof_loop_padded (leaves : list Z) (index : Z) :
  let d := Nat.log2_up (length leaves) in
  (- Z.of_nat (2 ^ d) <= index < Z.of_nat (2 ^ d))%Z ->
  exists s p,
    get_proof_loop (_build_tree (padded_hashes leaves)) (seq 0 d) [] [] index
    = Ok (s, p) /\ length s = d /\ length p = d.
Proof.
  intros d Hi.
  assert (Hnat : forall i, i < 2 ^ d ->
            exists s p,
              get_proof_loop (_build_tree (padded_hashes leaves)) (seq 0 d)
                             [] [] (Z.of_nat i) = Ok (s, p) /\
              length s = d /\ length p = d).
  { intros i Hlt. destruct (padded_walk leaves i Hlt) as [s [p [H1 [H2 [H3 _]]]]].
    eauto. }
  destruct (Z.ltb_spec index 0) as [Hneg | Hpos].
  - rewrite (get_proof_loop_shift _ d 0 d); try lia.
    + destruct (Hnat (Z.to_nat (index + Z.of_nat (2 ^ d))) ltac:(lia))
        as [s [p H]].
      rewrite Z2Nat.id in H by lia. eauto.
    + rewrite padded_tree_length. fold d. lia.
    + intros j Hj. cbn [Nat.add]. apply padded_tree_level_length. fold d. lia.
  - destruct (Hnat (Z.to_nat index) ltac:(lia)) as [s [p H]].
    rewrite Z2Nat.id in H by lia. eauto.
Qed.

(** Below the first node of an even-sized level, the sibling lookup of
    [get_proof] raises [IndexError]. *)
Lemma sibling_at_below (lvl : list Z) (cur : Z) :
  (Z.of_nat (length lvl) mod 2 = 0)%Z ->
  (cur < - Z.of_nat (length lvl))%Z ->
  sibling_at lvl cur = Raise IndexError.
Proof.
  intros Hev Hcur. unfold sibling_at, truthy, py_getitem.
  destruct (Z.eqb_spec (cur mod 2) 0) as [He | Ho]; cbn [negb];
    zcases; reflexivity.
Qed.

(** The proof that [get_proof] returns for a leaf verifies for that leaf. *)
Lemma get_proof_verifies_nat (leaves : list Z) (i : nat) :
  i < length leaves ->
  exists t s p,
    init leaves = Ok t /\
    get_proof t (Z.of_nat i) = Ok (s, p) /\
    verify_merkle_proof (nth i leaves 0%Z) s p (root t) = true.
Proof.
  intros Hi. pose proof (le_pow2_log2_up (length leaves)) as Hpad.
  destruct (padded_walk leaves i ltac:(lia)) as [s [p [Hloop [_ [_ Hfold]]]]].
  eexists. exists s, p. split; [apply init_spec |].
  unfold get_proof, verify_merkle_proof. cbn [n tree depth root].
  destruct (Z.leb_spec (Z.of_nat (length leaves)) (Z.of_nat i)); [lia |].
  split; [exact Hloop |].
  rewrite <- nth_padded_hashes, Hfold by assumption. apply Z.eqb_refl.
Qed.

(** Swapping the two nodes of a sibling pair does not change the next
    level. *)
Lemma next_level_swap (P Q : list Z) (x y : Z) :
  Nat.even (length P) = true ->
  next_level (P ++ x :: y :: Q) = next_level (P ++ y :: x :: Q).
Proof.
  intros Hev. apply Nat.even_spec in Hev. destruct Hev as [q Hq].
  unfold next_level.
  assert (Hlen : length (P ++ y :: x :: Q) = length (P ++ x :: y :: Q))
    by (rewrite !length_app; reflexivity).
  rewrite Hlen. apply map_ext_in. intros i Hi.
  unfold range2 in Hi. apply in_map_iff in Hi. destruct Hi as [k [<- Hk]].
  apply in_seq in Hk. unfold parent_at, has_right. rewrite Hlen.
  rewrite length_app in *. cbn [length] in *.
  destruct (lt_eq_lt_dec k q) as [[Hlt | Heq] | Hgt].
  - rewrite !(app_nth1 P) by lia.
    destruct (_ <? _); reflexivity.
  - subst k. rewrite <- Hq.
    rewrite !(app_nth2 P) by lia.
    replace (length P - length P) with 0 by lia.
    replace (length P + 1 - length P) with 1 by lia. cbn [nth].
    destruct (Nat.ltb_spec (length P + 1) (length P + S (S (length Q))));
      [apply poseidon_hash_pair_comm | lia].
  - rewrite !(app_nth2 P) by lia.
    replace (2 * k - length P) with (S (S (2 * k - length P - 2))) by lia.
    replace (2 * k + 1 - length P) with (S (S (2 * k + 1 - length P - 2)))
      by lia.
    reflexivity.
Qed.

(** A successful comprehension returns one result per element, each the
    result of its element. *)
Lemma map_result_nth {A B : Type} (f : A -> result B) (l : list A) :
  (forall x, In x l -> exists y, f x = Ok y) ->
  exists ys,
    map_result f l = Ok ys /\ length ys = length l /\
    forall i dx dy, i < length l -> f (nth i l dx) = Ok (nth i ys dy).
Proof.
  induction l as [| x l IH]; intros H.
  - exists []. repeat split; auto. intros i dx dy Hi. simpl in Hi. lia.
  - destruct (H x (or_introl eq_refl)) as [y Hy].
    destruct IH as [ys [Hys [Hlen Hnth]]];
      [intros z Hz; apply H; now right |].
    exists (y :: ys). cbn [map_result]. rewrite Hy. cbn [bind].
    rewrite Hys. cbn [bind length]. repeat split; auto.
    intros [| i] dx dy Hi; cbn [nth]; [exact Hy |]. apply Hnth. lia.
Qed.

(** [test_verification] answers [True] when every iteration of its loop
    finds its strings, reads them back and sees a valid proof. *)
Lemma verification_loop_true (ci : CircuitInput) (rt : Z) (bits : list Z)
    (indices : list nat) :
  (forall i, In i indices ->
     exists sstrs s pstrs p bit,
       py_getitem (ci_siblings ci) (Z.of_nat i) = Ok sstrs /\
       map_result py_int_of_str sstrs = Ok s /\
       py_getitem (ci_pathIndices ci) (Z.of_nat i) = Ok pstrs /\
       map_result py_int_of_str pstrs = Ok p /\
       py_getitem bits (Z.of_nat i) = Ok bit /\
       verify_merkle_proof bit s p rt = true) ->
  verification_loop ci rt bits indices true = Ok true.
Proof.
  induction indices as [| i rest IH]; intros H; [reflexivity |].
  destruct (H i (or_introl eq_refl))
    as [sstrs [s [pstrs [p [bit [H1 [H2 [H3 [H4 [H5 H6]]]]]]]]]].
  cbn [verification_loop]. rewrite H1. cbn [bind]. rewrite H2. cbn [bind].
  rewrite H3. cbn [bind]. rewrite H4. cbn [bind]. rewrite H5. cbn [bind].
  rewrite H6. apply IH. intros j Hj. apply H. now right.
Qed.

(** The zeros and ones of a list are all of it exactly when the list only
    holds bits. *)
Lemma count_bits (labels : list Z) :
  count_occ Z.eq_dec labels 0%Z + count_occ Z.eq_dec labels 1%Z
  <= length labels /\
  (count_occ Z.eq_dec labels 0%Z + count_occ Z.eq_dec labels 1%Z
   = length labels <-> Forall is_bit labels).
Proof.
  induction labels as [| b l IH].
  - split; [reflexivity |]. split; auto.
  - destruct IH as [IHle IHeq]. cbn [count_occ length].
    rewrite Forall_cons_iff. unfold is_bit at 1.
    destruct (Z.eq_dec b 0) as [E0 | N0]; destruct (Z.eq_dec b 1) as [E1 | N1];
      try lia; (split; [lia |]); split; intros H.
    all: try (split; [auto | apply IHeq; lia]).
    all: try (destruct H as [_ H]; apply IHeq in H; lia).
    all: lia.
Qed.

(** The dictionary that the body of [generate_test_data] builds: it is
    built without an exception, from one proof per label. *)
Lemma circuit_input_of_ok (labels : list Z) :
  exists t proofs,
    init labels = Ok t /\
    length proofs = length labels /\
    (forall i, i < length labels ->
       get_proof t (Z.of_nat i) = Ok (nth i proofs ([], []))) /\
    circuit_input_of labels
    = Ok (mkCircuitInput
            (py_str 1) (py_str (root t)) (py_str (Z.of_nat (length labels)))
            (py_str (py_count labels 0)) (py_str (py_count labels 1))
            (map py_str labels)
            (map (map py_str) (map fst proofs))
            (map (map py_str) (map snd proofs))).
Proof.
  unfold circuit_input_of. rewrite init_spec. cbn [bind].
  set (t := mkMerkleTree _ _ _ _ _ _ _).
  destruct (map_result_nth (fun i => get_proof t (Z.of_nat i))
              (seq 0 (length labels))) as [proofs [Hproofs [Hlen Hnth]]].
  { intros i Hi. apply in_seq in Hi.
    destruct (get_proof_verifies_nat labels i ltac:(lia))
      as [t' [s [p [Ht' [Hg _]]]]].
    rewrite init_spec in Ht'. injection Ht' as <-. eauto. }
  rewrite length_seq in Hlen, Hnth.
  exists t, proofs. rewrite Hproofs. cbn [bind].
  repeat split; auto.
  intros i Hi. specialize (Hnth i 0 ([], []) Hi).
  now rewrite seq_nth in Hnth by lia.
Qed.

End BalanceMore.

(** ** Further facts about the training generator *)

Lemma index_bits_succ (cur : Z) (m : nat) :
  index_bits cur (S m) = (cur mod 2)%Z :: index_bits (cur / 2) m.
Proof.
  unfold index_bits. cbn [seq map]. f_equal.
  - now rewrite Z.pow_0_r, Z.div_1_r.
  - rewrite <- seq_shift, map_map. apply map_ext. intros j.
    rewrite Nat2Z.inj_succ, Z.pow_succ_r, Z.div_div by lia. reflexivity.
Qed.

Section TrainingMore.

Import Training.

Lemma nth_training_next_level (l : list Z) (j : nat) :
  j < (length l + 1) / 2 -> nth j (next_level l) 0%Z = parent_at l (2 * j).
Proof.
  intros H. unfold next_level, range2. rewrite map_map.
  rewrite (nth_indep _ 0%Z (parent_at l (2 * 0)))
    by now rewrite length_map, length_seq.
  rewrite (map_nth (fun k => parent_at l (2 * k))).
  now rewrite seq_nth.
Qed.

Lemma build_levels_nonempty (l : list Z) : build_levels l <> [].
Proof.
  destruct (le_lt_dec (length l) 1) as [Hs | Hb].
  - now rewrite build_levels_small.
  - now rewrite build_levels_step.
Qed.

Lemma build_levels_chain (l : list Z) (j : nat) :
  S j < length (build_levels l) ->
  nth (S j) (build_levels l) [] = next_level (nth j (build_levels l) []).
Proof.
  remember (length l) as k eqn:Hk. revert l Hk j.
  induction k as [k IH] using lt_wf_ind. intros l -> j.
  destruct (le_lt_dec (length l) 1) as [Hs | Hb].
  - rewrite build_levels_small by assumption. simpl. lia.
  - rewrite (build_levels_step _ Hb). cbn [length nth]. intros Hj.
    destruct j as [| j].
    + now rewrite build_levels_head.
    + apply (IH (length (next_level l))); try reflexivity; [| lia].
      rewrite training_next_level_length.
      pose proof (half_up_bounds (length l)). lia.
Qed.

Lemma merkle_levels_shape (leaves : list Z) :
  let d := Nat.log2_up (length leaves) in
  length (merkle_levels leaves) = S d /\
  forall k, k <= d -> length (nth k (merkle_levels leaves) []) = 2 ^ (d - k).
Proof.
  apply (pow2_levels next_level build_levels training_next_level_length
           build_levels_small build_levels_step).
  apply padded_leaves_length.
Qed.

Lemma merkle_levels_top (leaves : list Z) :
  last (merkle_levels leaves) []
  = nth (Nat.log2_up (length leaves)) (merkle_levels leaves) [].
Proof.
  destruct (merkle_levels_shape leaves) as [Hlen _].
  destruct (exists_last (build_levels_nonempty (padded_leaves leaves)))
    as [front [top E]].
  unfold merkle_levels in *. rewrite E in *.
  rewrite length_app in Hlen. simpl in Hlen.
  replace (Nat.log2_up (length leaves)) with (length front) by lia.
  now rewrite nth_middle, last_last.
Qed.

(** One iteration of the proof loop of [build_merkle_tree] finds the
    sibling that the tree loop paired the node with, or 0 past the end of
    the level, as the tree loop does. *)
Lemma training_sibling_nat (lvl : list Z) (i : nat) :
  i < length lvl ->
  exists sib,
    (if (Z.lxor (Z.of_nat i) 1 <? Z.of_nat (length lvl))%Z
     then py_getitem lvl (Z.lxor (Z.of_nat i) 1)
     else Ok 0%Z) = Ok sib /\
    training_step (nth i lvl 0%Z) (sib, (Z.of_nat i mod 2)%Z)
    = nth (i / 2) (next_level lvl) 0%Z.
Proof.
  intros Hi. rewrite nth_training_next_level by lia.
  rewrite <- sibling_index_xor by lia.
  unfold training_step, parent_at, has_right, truthy.
  destruct (Z.eqb_spec (Z.of_nat i mod 2) 0) as [Hev | Hodd]; cbn [negb].
  - replace (2 * (i / 2)) with i by lia.
    destruct (Nat.ltb_spec (i + 1) (length lvl)) as [Hr | Hr]; zcases.
    + replace (Z.of_nat i + 1)%Z with (Z.of_nat (i + 1)) by lia.
      rewrite (py_getitem_nat _ _ 0%Z Hr). eauto.
    + eauto.
  - replace (2 * (i / 2)) with (i - 1) by lia.
    replace (i - 1 + 1) with i by lia.
    destruct (Nat.ltb_spec i (length lvl)) as [_ | Hr]; [| lia]. zcases.
    replace (Z.of_nat i - 1)%Z with (Z.of_nat (i - 1)) by lia.
    rewrite (py_getitem_nat _ _ 0%Z) by lia. eauto.
Qed.

(** The proof loop over the levels [k, ..., k + m - 1] of a chained tree,
    started at a node of level [k]: it raises nothing, records the binary
    digits of the index and [m] siblings, and the recorded steps lead from
    that node to a node of level [k + m]. *)
Lemma proof_loop_nat (tree : list (list Z)) (m : nat) :
  forall (k i : nat) (s p : list Z),
    k + m < length tree ->
    (forall j, j < m ->
       nth (S (k + j)) tree [] = next_level (nth (k + j) tree [])) ->
    i < length (nth k tree []) ->
    exists s' i',
      proof_loop tree (seq k m) s p (Z.of_nat i)
      = Ok (s ++ s', p ++ index_bits (Z.of_nat i) m) /\
      length s' = m /\
      i' < length (nth (k + m) tree []) /\
      fold_left training_step (combine s' (index_bits (Z.of_nat i) m))
                (nth i (nth k tree []) 0%Z)
      = nth i' (nth (k + m) tree []) 0%Z.
Proof.
  induction m as [| m IH]; intros k i s p Hk Hch Hi.
  - exists [], i. cbn. rewrite !app_nil_r, Nat.add_0_r. auto.
  - cbn [seq proof_loop].
    rewrite (py_getitem_nat tree _ []) by lia. cbn [bind].
    destruct (training_sibling_nat _ _ Hi) as [sib [Hsib Hstep]].
    rewrite Hsib. cbn [bind].
    replace (Z.of_nat i / 2)%Z with (Z.of_nat (i / 2)) by lia.
    pose proof (Hch 0 ltac:(lia)) as Hnext. rewrite Nat.add_0_r in Hnext.
    destruct (IH (S k) (i / 2) (s ++ [sib]) (p ++ [(Z.of_nat i mod 2)%Z]))
      as [s' [i' [Hloop [Hs [Hi' Hfold]]]]].
    + lia.
    + intros j Hj. replace (S k + j) with (k + S j) by lia. apply Hch. lia.
    + rewrite Hnext, training_next_level_length. lia.
    + exists (sib :: s'), i'.
      rewrite Hloop, <- !app_assoc, index_bits_succ.
      replace (Z.of_nat i / 2)%Z with (Z.of_nat (i / 2)) by lia.
      cbn [app length combine fold_left].
      replace (k + S m) with (S k + m) by lia.
      rewrite Hstep, <- Hnext. auto.
Qed.

(** What [build_merkle_tree] returns, for every list of leaves. *)
Lemma build_merkle_tree_ok (leaves : list Z) :
  let d := Nat.log2_up (length leaves) in
  let root := nth 0 (last (merkle_levels leaves) []) 0%Z in
  exists proofs,
    build_merkle_tree leaves = Ok (root, map fst proofs, map snd proofs) /\
    length proofs = length leaves /\
    forall i, i < length leaves ->
      length (fst (nth i proofs ([], []))) = d /\
      snd (nth i proofs ([], [])) = index_bits (Z.of_nat i) d /\
      fold_left training_step
        (combine (fst (nth i proofs ([], []))) (snd (nth i proofs ([], []))))
        (nth i leaves 0%Z) = root.
Proof.
  intros d root. unfold build_merkle_tree.
  destruct (size_loop_spec (length leaves)) as [size [-> _]]. fold d.
  destruct (merkle_levels_shape leaves) as [Hlen Hlev]. fold d in Hlen, Hlev.
  pose proof (le_pow2_log2_up (length leaves)) as Hpad. fold d in Hpad.
  rewrite (py_getitem_last _ []) by apply build_levels_nonempty.
  cbn [bind].
  assert (Htop : length (last (merkle_levels leaves) []) = 1).
  { rewrite merkle_levels_top. fold d. rewrite Hlev by lia.
    now rewrite Nat.sub_diag. }
  rewrite (py_getitem_nat _ 0 0%Z) by lia. cbn [bind]. fold root.
  assert (Hone : forall i, i < length leaves ->
            exists s,
              proof_loop (merkle_levels leaves) (seq 0 d) [] [] (Z.of_nat i)
              = Ok (s, index_bits (Z.of_nat i) d) /\
              length s = d /\
              fold_left training_step (combine s (index_bits (Z.of_nat i) d))
                        (nth i leaves 0%Z) = root).
  { intros i Hi.
    destruct (proof_loop_nat (merkle_levels leaves) d 0 i [] [])
      as [s [i' [Hloop [Hs [Hi' Hfold]]]]].
    - lia.
    - intros j Hj. apply build_levels_chain. unfold merkle_levels in Hlen. lia.
    - rewrite Hlev by lia. rewrite Nat.sub_0_r. lia.
    - exists s. cbn [app Nat.add] in *. split; [exact Hloop |].
      split; [exact Hs |].
      pose proof (merkle_levels_top leaves) as Htop'. fold d in Htop'.
      rewrite <- Htop' in Hi', Hfold.
      replace i' with 0 in Hfold by lia.
      unfold merkle_levels in Hfold at 1. rewrite build_levels_head in Hfold.
      rewrite padded_leaves_spec, app_nth1 in Hfold by lia. exact Hfold. }
  destruct (map_result_nth
              (fun leaf_idx =>
                 proof_loop (merkle_levels leaves) (seq 0 d) [] []
                            (Z.of_nat leaf_idx))
              (seq 0 (length leaves))) as [proofs [Hproofs [Hplen Hnth]]].
  { intros i Hi. apply in_seq in Hi.
    destruct (Hone i ltac:(lia)) as [s [Hs _]]. eauto. }
  rewrite length_seq in Hplen, Hnth.
  exists proofs. rewrite Hproofs. cbn [bind].
  split; [reflexivity |]. split; [exact Hplen |].
  intros i Hi. specialize (Hnth i 0 ([], []) Hi).
  rewrite seq_nth in Hnth by lia. cbn [Nat.add] in Hnth.
  destruct (Hone i Hi) as [s [Hs [Hslen Hfold]]].
  rewrite Hs in Hnth. injection Hnth as Hnth. rewrite <- Hnth. cbn [fst snd].
  auto.
Qed.

End TrainingMore.

(** ** Decimal strings of integers that end in a given digit *)

Section DecimalDigits.

Import DecimalPos.Unsigned.

Lemma string_append_assoc (a b c : String.string) :
  String.append (String.append a b) c = String.append a (String.append b c).
Proof.
  induction a as [| ch a IH]; [reflexivity |]. cbn. now rewrite IH.
Qed.

Lemma py_encode_append (a b : String.string) :
  py_encode (String.append a b) = py_encode a ++ py_encode b.
Proof.
  unfold py_encode. rewrite <- map_app. f_equal.
  induction a as [| ch a IH]; [reflexivity |]. cbn. now rewrite IH.
Qed.

Lemma string_of_revapp (u v : Decimal.uint) :
  DecimalString.NilEmpty.string_of_uint (Decimal.revapp u v)
  = String.append
      (DecimalString.NilEmpty.string_of_uint (Decimal.rev u))
      (DecimalString.NilEmpty.string_of_uint v).
Proof.
  revert v. unfold Decimal.rev.
  induction u as [| u IH | u IH | u IH | u IH | u IH | u IH | u IH | u IH
                    | u IH | u IH]; intros v; [reflexivity | ..];
    cbn [Decimal.revapp]; rewrite IH;
    match goal with
    | |- _ = String.append
               (DecimalString.NilEmpty.string_of_uint (Decimal.revapp u ?w)) _ =>
        rewrite (IH w)
    end;
    rewrite string_append_assoc; reflexivity.
Qed.

Lemma py_str_nonneg (z : Z) :
  (0 <= z)%Z ->
  py_str z
  = DecimalString.NilEmpty.string_of_uint (Decimal.rev (to_lu (Z.to_N z))).
Proof.
  intros Hz. destruct z as [| p | p]; [reflexivity | | lia].
  unfold py_str. cbn [Z.to_int Z.to_N to_lu].
  cbn [DecimalString.NilZero.string_of_int].
  unfold DecimalString.NilZero.string_of_uint.
  pose proof (to_uint_nonnil p) as Hnn. unfold Pos.to_uint in *.
  destruct (Decimal.rev (Pos.to_little_uint p)); [contradiction | ..];
    reflexivity.
Qed.

(** [str(10 * a + d)] is [str(a)] followed by the digit [d], when [a] is
    positive. *)
Lemma py_str_snoc (a d : Z) :
  (0 < a)%Z -> (0 <= d <= 9)%Z ->
  py_str (10 * a + d) = String.append (py_str a) (py_str d).
Proof.
  intros Ha Hd. destruct a as [| p | p]; try lia.
  rewrite (py_str_nonneg (10 * Z.pos p + d)), (py_str_nonneg (Z.pos p)) by lia.
  cbn [Z.to_N].
  assert (Hcases : (d = 0 \/ d = 1 \/ d = 2 \/ d = 3 \/ d = 4 \/ d = 5 \/
                    d = 6 \/ d = 7 \/ d = 8 \/ d = 9)%Z) by lia.
  assert (Hsucc : forall (k : nat) (z : Z),
            z = Z.of_nat k ->
            Z.to_N (10 * Z.pos p + z) = Nat.iter k N.succ (10 * N.pos p)%N).
  { intros k z ->. induction k as [| k IH]; [cbn; lia |].
    rewrite Nat.iter_succ, <- IH. lia. }
  repeat (destruct Hcases as [-> | Hcases]); [.. | subst d];
    match goal with
    | |- context [Z.to_N (10 * Z.pos p + ?z)] =>
        let k := eval compute in (Z.to_nat z) in
        rewrite (Hsucc k z eq_refl)
    end;
    cbn [Nat.iter nat_rect];
    rewrite ?to_lu_succ, to_ldec_tenfold;
    cbn [Decimal.Little.succ]; unfold Decimal.rev at 1;
    cbn [Decimal.revapp]; now rewrite string_of_revapp.
Qed.

End DecimalDigits.

Section TrainingCollisions.

Import Training.
Local Open Scope Z_scope.

(** The hash of the training generator reads its inputs as one string of
    digits: moving a digit from the start of the second input to the end of
    the first does not change it. *)
Lemma poseidon_hash_moved_digit (a d : Z) :
  (0 < a)%Z -> (1 <= d <= 9)%Z ->
  poseidon_hash [a; 10 * d] = poseidon_hash [10 * a + d; 0]%Z.
Proof.
  intros Ha Hd. unfold poseidon_hash. do 2 f_equal.
  cbn [map concat]. rewrite !app_nil_r.
  replace (10 * d)%Z with (10 * d + 0)%Z by lia.
  rewrite (py_str_snoc d 0), (py_str_snoc a d) by lia.
  rewrite !py_encode_append, app_assoc. reflexivity.
Qed.

Lemma poseidon_hash_range (inputs : list Z) :
  (0 <= poseidon_hash inputs < 2 ^ 251)%Z.
Proof.
  unfold poseidon_hash. apply Z.mod_pos_bound. reflexivity.
Qed.

Lemma merkle_levels_pair (x y : Z) :
  merkle_levels [x; y] = [[x; y]; [poseidon_hash [x; y]]].
Proof.
  unfold merkle_levels. rewrite padded_leaves_spec.
  change (Nat.log2_up (length [x; y])) with 1%nat.
  cbn [length Nat.pow Nat.mul Nat.add Nat.sub repeat app].
  rewrite build_levels_step by (cbn; lia).
  rewrite build_levels_small by (rewrite training_next_level_length; cbn; lia).
  reflexivity.
Qed.

End TrainingCollisions.

(** ** Padding and the size of the dataset *)

Lemma log2_up_succ_below_pow2 (n : nat) :
  n < 2 ^ Nat.log2_up n -> Nat.log2_up (S n) = Nat.log2_up n.
Proof.
  intros Hn. apply Nat.le_antisymm.
  - apply Nat.log2_up_le_pow2; lia.
  - apply Nat.log2_up_le_mono. lia.
Qed.

Lemma padded_hashes_snoc_zero (leaves : list Z) :
  length leaves < 2 ^ Nat.log2_up (length leaves) ->
  padded_hashes (leaves ++ [0%Z]) = padded_hashes leaves.
Proof.
  intros Hn. unfold padded_hashes.
  rewrite length_app. cbn [length]. rewrite Nat.add_1_r.
  rewrite (log2_up_succ_below_pow2 _ Hn), map_app, <- app_assoc.
  f_equal. cbn [map app].
  replace (2 ^ Nat.log2_up (length leaves) - length leaves)
    with (S (2 ^ Nat.log2_up (length leaves) - S (length leaves))) by lia.
  reflexivity.
Qed.

Lemma padded_leaves_snoc_zero (leaves : list Z) :
  length leaves < 2 ^ Nat.log2_up (length leaves) ->
  Training.padded_leaves (leaves ++ [0%Z]) = Training.padded_leaves leaves.
Proof.
  intros Hn. rewrite !padded_leaves_spec.
  rewrite length_app. cbn [length]. rewrite Nat.add_1_r.
  rewrite (log2_up_succ_below_pow2 _ Hn), <- app_assoc.
  f_equal. cbn [app].
  replace (2 ^ Nat.log2_up (length leaves) - length leaves)
    with (S (2 ^ Nat.log2_up (length leaves) - S (length leaves))) by lia.
  reflexivity.
Qed.

(** ** The model on concrete inputs *)

Section Examples.

Import String.

(** SHA-256 on messages of 0, 3, 55, 56, 64 and 100 bytes (one and two
    blocks, on both sides of the padding boundary). *)
Example sha256_empty :
  Sha256.digest_int []
  = 102987336249554097029535212322581322789799900648198034993379397001115665086549%Z.
Proof. vm_compute. reflexivity. Qed.

Example sha256_abc :
  Sha256.digest_int (py_encode "abc")
  = 84342368487090800366523834928142263660104883695016514377462985829716817089965%Z.
Proof. vm_compute. reflexivity. Qed.

Example sha256_55_bytes :
  Sha256.digest_int (repeat 97%Z 55)
  = 72037122237846122527212539036687634061194206475134203186969593573722450772760%Z.
Proof. vm_compute. reflexivity. Qed.

Example sha256_56_bytes :
  Sha256.digest_int (repeat 97%Z 56)
  = 81112812888978480114685272266761798772894276249669478316734282911705725301642%Z.
Proof. vm_compute. reflexivity. Qed.

Example sha256_64_bytes :
  Sha256.digest_int (repeat 97%Z 64)
  = 115736136738703445724909789689412237499275973113121828343427508099316743301355%Z.
Proof. vm_compute. reflexivity. Qed.

Example sha256_100_bytes :
  Sha256.digest_int (repeat 97%Z 100)
  = 18132002083790768273691335588781030273447686973737231155365144298649914202638%Z.
Proof. vm_compute. reflexivity. Qed.

Example py_str_negative : py_str (-12) = "-12"%string.
Proof. reflexivity. Qed.

Example training_hash_of_zero :
  Training.poseidon_hash [0%Z]
  = 3584790534613707582567710008151776633662209724360291768733261835417264281577%Z.
Proof. vm_compute. reflexivity. Qed.

Example training_hash_of_pair :
  Training.poseidon_hash [5; 6]%Z
  = 2955430862242546457083178705777105035831469390738825030840774764272652421222%Z.
Proof. vm_compute. reflexivity. Qed.

(** The dataset of the balance generator: eight labels, depth 3, no
    padding. *)
Example balance_labels8 :
  exists t,
    Balance.init labels8 = Ok t /\
    Balance.depth t = 3 /\ Balance.padded_n t = 8 /\
    Balance.root t = 14879155514510647542103635200%Z /\
    Balance.get_proof t 2
    = Ok ([987654321; 2440176007559824; 6027003218553496689000]%Z,
          [0; 1; 0]%Z).
Proof.
  eexists. split; [vm_compute; reflexivity |].
  repeat split; vm_compute; reflexivity.
Qed.

(** A single leaf: depth 0, the root is the hash of the leaf and the proof
    has no step. *)
Example balance_single_leaf :
  exists t,
    Balance.init [5%Z] = Ok t /\
    Balance.depth t = 0 /\
    Balance.root t = Balance.poseidon_hash_single 5 /\
    Balance.get_proof t 0 = Ok ([], []) /\
    Balance.verify_merkle_proof 5 [] [] (Balance.root t) = true.
Proof.
  eexists. split; [vm_compute; reflexivity |].
  repeat split; vm_compute; reflexivity.
Qed.

(** With three leaves, index [-1] selects the padding node of the leaf
    level, not the last leaf: the proof returned verifies for the padding
    value 0 and not for [leaves[-1] = 7]. *)
Example balance_negative_index :
  exists t siblings path_indices,
    Balance.init [5; 6; 7]%Z = Ok t /\
    Balance.get_proof t (-1) = Ok (siblings, path_indices) /\
    py_getitem [5; 6; 7]%Z (-1) = Ok 7%Z /\
    Balance.verify_merkle_proof 7 siblings path_indices (Balance.root t)
    = false /\
    Balance.verify_merkle_proof 0 siblings path_indices (Balance.root t)
    = true.
Proof.
  do 3 eexists. split; [vm_compute; reflexivity |].
  split; [vm_compute; reflexivity |].
  repeat split; vm_compute; reflexivity.
Qed.

(** Below the first index that raises [ValueError] in the other direction,
    a negative index beyond the padded leaf level raises [IndexError]. *)
Example balance_index_error :
  exists t,
    Balance.init [5; 6; 7]%Z = Ok t /\
    Balance.get_proof t (-4) = Ok ([995061723; 2449320941624758]%Z, [0; 0]%Z) /\
    Balance.get_proof t (-5) = Raise IndexError.
Proof.
  eexists. split; [vm_compute; reflexivity |].
  split; vm_compute; reflexivity.
Qed.

(** The tree of the training generator on three leaves. *)
Example training_three_leaves :
  Training.build_merkle_tree [11; 22; 33]%Z
  = Ok (3553140659790199764421037071716666033997052305588534262233969331795534913334%Z,
        [[22; 1877846403961344149051337820279839453012695742456455322916751028017150962134];
         [11; 1877846403961344149051337820279839453012695742456455322916751028017150962134];
         [0; 1427903573244753178974271421594791475273759535677117442875907628070467482218]]%Z,
        [[0; 0]; [1; 0]; [0; 1]]%Z).
Proof. vm_compute. reflexivity. Qed.

End Examples.

(** ** Binary64 examples

    The values on the right were computed with CPython. *)

Section Binary64Examples.

Import String.
Import PrimFloat.
Import Binary64.
Local Open Scope float_scope.

(** [to_fixed(0.3)]: the product rounds to 300.0. *)
Example to_fixed_three_tenths :
  to_fixed 0x1.3333333333333p-2 = Ok "300"%string.
Proof. vm_compute. reflexivity. Qed.

(** [to_fixed(1.001)]: the product is just below 1001 and is truncated; the
    encoding of [from_fixed(1001)] is not 1001. *)
Example to_fixed_loses_a_unit :
  from_fixed 1001 = Ok 0x1.004189374bc6ap+0 /\
  to_fixed 0x1.004189374bc6ap+0 = Ok "1000"%string.
Proof. split; vm_compute; reflexivity. Qed.

(** The float just below 0.117: the product rounds up to 117.0, and the
    decoded value is above the argument. *)
Example decoded_above_argument :
  to_fixed 0x1.df3b645a1cac0p-4 = Ok "117"%string /\
  from_fixed 117 = Ok 0x1.df3b645a1cac1p-4 /\
  (0x1.df3b645a1cac0p-4 <? 0x1.df3b645a1cac1p-4) = true.
Proof. repeat split; vm_compute; reflexivity. Qed.

Example to_fixed_negative :
  to_fixed (-0x1.4p+1) = Ok "-2500"%string /\
  to_fixed (-0x1p-10) = Ok "0"%string.
Proof. split; vm_compute; reflexivity. Qed.

(** [to_fixed(1e22)]: a product with a positive exponent is an integer. *)
Example to_fixed_large :
  to_fixed 0x1.0f0cf064dd592p+73 = Ok "10000000000000000905969664"%string.
Proof. vm_compute. reflexivity. Qed.

(** [to_fixed(2.0 ** 1020)], [to_fixed(inf)] and [to_fixed(nan)] *)
Example to_fixed_raises :
  to_fixed 0x1p1020 = Raise OverflowError /\
  to_fixed infinity = Raise OverflowError /\
  to_fixed nan = Raise ValueError.
Proof. repeat split; vm_compute; reflexivity. Qed.

(** [72057594037928992 / 1000] *)
Example from_fixed_rounds :
  from_fixed 72057594037928992 = Ok 0x1.0624dd2f1aa3fp+46 /\
  from_fixed (-7) = Ok (-0x1.cac083126e979p-8).
Proof. split; vm_compute; reflexivity. Qed.

(** With left-to-right addition and the square root. *)
Example l2_norm_3_4 : compute_l2_norm reference [3; 4] = 5.
Proof. vm_compute. reflexivity. Qed.

Example clip_gradient_3_4 :
  clip_gradient reference [3; 4] 1
  = Ok [0x1.3333333333334p-1; 0x1.999999999999ap-1].
Proof. vm_compute. reflexivity. Qed.

(** A NaN component: the norm is NaN, the test [norm > tau] is false and the
    vector comes back as it is. *)
Example clip_gradient_NaN :
  clip_gradient reference [nan; 1] 1 = Ok [nan; 1].
Proof. vm_compute. reflexivity. Qed.

(** Squares that underflow: the norm is 0.0 and a negative threshold
    divides by it. *)
Example clip_gradient_underflow :
  compute_l2_norm reference [0x1p-600; 0x1p-600] = 0 /\
  clip_gradient reference [0x1p-600; 0x1p-600] (-1)
  = Raise ZeroDivisionError.
Proof. split; vm_compute; reflexivity. Qed.

End Binary64Examples.

(** * The checked properties *)

(** C1. Round-trip proof validity: for every leaf sequence of length 1 to 64
    and every index [0 <= i < n], building the tree succeeds, [get_proof]
    returns a proof for [i] with one step per level, and
    [verify_merkle_proof] accepts that proof for the raw leaf [leaves[i]]
    against the root of the tree. *)
Theorem membership_proof_roundtrip (leaves : list Z) (i : Z) :
  1 <= length leaves <= 64 ->
  (0 <= i < Z.of_nat (length leaves))%Z ->
  exists t leaf siblings path_indices,
    Balance.init leaves = Ok t /\
    py_getitem leaves i = Ok leaf /\
    Balance.get_proof t i = Ok (siblings, path_indices) /\
    length siblings = Balance.depth t /\
    length path_indices = Balance.depth t /\
    Balance.verify_merkle_proof leaf siblings path_indices (Balance.root t)
    = true.
Proof.
  intros _ Hi.
  assert (Hn : Z.to_nat i < length leaves) by lia.
  pose proof (le_pow2_log2_up (length leaves)) as Hpad.
  destruct (padded_walk leaves (Z.to_nat i) ltac:(lia))
    as [s [p [Hloop [Hs [Hp Hfold]]]]].
  rewrite Z2Nat.id in Hloop by lia.
  eexists. exists (nth (Z.to_nat i) leaves 0%Z), s, p.
  split; [apply init_spec |].
  split; [rewrite <- (Z2Nat.id i) at 1 by lia; now apply py_getitem_nat |].
  unfold Balance.get_proof, Balance.verify_merkle_proof.
  cbn [Balance.n Balance.tree Balance.depth Balance.root].
  destruct (Z.leb_spec (Z.of_nat (length leaves)) i); [lia |].
  split; [exact Hloop |]. split; [exact Hs |]. split; [exact Hp |].
  rewrite <- nth_padded_hashes, Hfold by assumption. apply Z.eqb_refl.
Qed.

Lemma membership_proof_roundtrip_witness :
  1 <= length labels8 <= 64 /\
  (0 <= 2 < Z.of_nat (length labels8))%Z /\
  exists t leaf siblings path_indices,
    Balance.init labels8 = Ok t /\
    py_getitem labels8 2 = Ok leaf /\
    Balance.get_proof t 2 = Ok (siblings, path_indices) /\
    length siblings = Balance.depth t /\
    length path_indices = Balance.depth t /\
    Balance.verify_merkle_proof leaf siblings path_indices (Balance.root t)
    = true.
Proof.
  split; [simpl; lia |]. split; [simpl; lia |].
  apply (membership_proof_roundtrip labels8 2); simpl; lia.
Defined.

(** C6. [get_proof] raises [ValueError] for every index [>= n], the original
    leaf count, and returns a proof with one step per level, without error,
    for every index with [0 <= index < n]. *)
Theorem get_proof_index_check (leaves : list Z) (t : Balance.MerkleTree)
    (index : Z) :
  Balance.init leaves = Ok t ->
  ((Z.of_nat (length leaves) <= index)%Z ->
   Balance.get_proof t index = Raise ValueError) /\
  ((0 <= index < Z.of_nat (length leaves))%Z ->
   exists siblings path_indices,
     Balance.get_proof t index = Ok (siblings, path_indices) /\
     length siblings = Balance.depth t /\
     length path_indices = Balance.depth t).
Proof.
  rewrite init_spec. intros [= <-].
  unfold Balance.get_proof. cbn [Balance.n Balance.tree Balance.depth].
  split; intros Hi.
  - destruct (Z.leb_spec (Z.of_nat (length leaves)) index); [reflexivity | lia].
  - destruct (Z.leb_spec (Z.of_nat (length leaves)) index); [lia |].
    pose proof (le_pow2_log2_up (length leaves)) as Hpad.
    destruct (padded_walk leaves (Z.to_nat index) ltac:(lia))
      as [s [p [Hloop [Hs [Hp _]]]]].
    rewrite Z2Nat.id in Hloop by lia. eauto.
Qed.

Lemma get_proof_index_check_witness :
  exists t,
    Balance.init labels8 = Ok t /\
    Balance.get_proof t 8 = Raise ValueError /\
    exists siblings path_indices,
      Balance.get_proof t 7 = Ok (siblings, path_indices) /\
      length siblings = Balance.depth t /\
      length path_indices = Balance.depth t.
Proof.
  eexists. split; [vm_compute; reflexivity |].
  split.
  - apply (get_proof_index_check labels8 _ 8); [vm_compute; reflexivity |].
    simpl; lia.
  - apply (get_proof_index_check labels8 _ 7); [vm_compute; reflexivity |].
    simpl; lia.
Defined.

(** C10. The index check of [get_proof] is one-sided: for every negative
    index with [-n <= index < 0] the call raises nothing and returns a
    proof, the one of the node that Python's negative indexing selects in
    the padded leaf level ([leaf_hashes[index]]); folding the recorded steps
    from that node gives the root. *)
Theorem get_proof_negative_index (leaves : list Z) (t : Balance.MerkleTree)
    (index : Z) :
  Balance.init leaves = Ok t ->
  (- Z.of_nat (length leaves) <= index < 0)%Z ->
  exists siblings path_indices node,
    Balance.get_proof t index = Ok (siblings, path_indices) /\
    length siblings = Balance.depth t /\
    length path_indices = Balance.depth t /\
    py_getitem (Balance.leaf_hashes t) index = Ok node /\
    fold_left Balance.verify_step (combine siblings path_indices) node
    = Balance.root t.
Proof.
  rewrite init_spec. intros [= <-] Hi.
  unfold Balance.get_proof.
  cbn [Balance.n Balance.tree Balance.depth Balance.leaf_hashes Balance.root].
  destruct (Z.leb_spec (Z.of_nat (length leaves)) index); [lia |].
  pose proof (le_pow2_log2_up (length leaves)) as Hpad.
  set (d := Nat.log2_up (length leaves)) in *.
  rewrite (get_proof_loop_shift _ d 0 d).
  - assert (Hpos : (index + Z.of_nat (2 ^ d)
                    = Z.of_nat (Z.to_nat (index + Z.of_nat (2 ^ d))))%Z) by lia.
    destruct (padded_walk leaves (Z.to_nat (index + Z.of_nat (2 ^ d)))
                ltac:(fold d; lia)) as [s [p [Hloop [Hs [Hp Hfold]]]]].
    fold d in Hloop, Hs, Hp. rewrite <- Hpos in Hloop.
    exists s, p. eexists. repeat (split; [eassumption |]).
    split; [| exact Hfold].
    rewrite py_getitem_shift by (rewrite padded_hashes_length; fold d; lia).
    rewrite padded_hashes_length. fold d. rewrite Hpos at 1.
    apply py_getitem_nat. rewrite padded_hashes_length. fold d. lia.
  - rewrite padded_tree_length. fold d. lia.
  - lia.
  - intros j Hj. cbn [Nat.add]. apply padded_tree_level_length. fold d. lia.
  - lia.
Qed.

Lemma get_proof_negative_index_witness :
  exists t,
    Balance.init [5; 6; 7]%Z = Ok t /\
    exists siblings path_indices node,
      Balance.get_proof t (-1) = Ok (siblings, path_indices) /\
      length siblings = Balance.depth t /\
      length path_indices = Balance.depth t /\
      py_getitem (Balance.leaf_hashes t) (-1) = Ok node /\
      fold_left Balance.verify_step (combine siblings path_indices) node
      = Balance.root t.
Proof.
  eexists. split; [vm_compute; reflexivity |].
  apply (get_proof_negative_index [5; 6; 7]%Z); [vm_compute; reflexivity |].
  simpl; lia.
Defined.

(** C2, as stated, fails on the training generator: [build_merkle_tree]
    takes its leaves as they are and fills the padding slot with the raw
    value [0], so level 0 of its tree for three leaves is not the hashed
    and hash-padded sequence. *)
Lemma padding_hashes_counterexample :
  nth 0 (Training.merkle_levels [11; 22; 33]%Z) [] = [11; 22; 33; 0]%Z /\
  nth 0 (Training.merkle_levels [11; 22; 33]%Z) []
  <> map (fun v => Training.poseidon_hash [v]) [11; 22; 33]%Z
     ++ repeat (Training.poseidon_hash [0%Z]) (2 ^ Nat.log2_up 3 - 3).
Proof.
  split; [vm_compute; reflexivity |].
  intros H. vm_compute in H. discriminate H.
Qed.

(** C2, amended. For every non-empty leaf sequence, [MerkleTree.__init__]
    of the balance generator hashes each raw leaf and pads the hashed
    sequence on the right with [hash(0)] up to [2 ^ ceil(log2(n))], which is
    level 0 of its tree; [build_merkle_tree] of the training generator keeps
    the leaves as given and pads them on the right with the raw value [0] up
    to the same length. *)
Theorem level0_padding (leaves : list Z) :
  1 <= length leaves ->
  let padded_size := 2 ^ Nat.log2_up (length leaves) in
  length leaves <= padded_size < 2 * length leaves /\
  (exists t,
     Balance.init leaves = Ok t /\
     Balance.padded_n t = padded_size /\
     nth 0 (Balance.tree t) []
     = map Balance.poseidon_hash_single leaves
       ++ repeat (Balance.poseidon_hash_single 0)
            (padded_size - length leaves) /\
     length (nth 0 (Balance.tree t) []) = padded_size) /\
  nth 0 (Training.merkle_levels leaves) []
  = leaves ++ repeat 0%Z (padded_size - length leaves) /\
  length (nth 0 (Training.merkle_levels leaves) []) = padded_size.
Proof.
  intros Hn padded_size. split; [| split; [| split]].
  - apply pow2_log2_up_bounds, Hn.
  - eexists. split; [apply init_spec |].
    cbn [Balance.padded_n Balance.tree]. rewrite build_tree_head.
    split; [reflexivity |]. split; [reflexivity |].
    apply padded_hashes_length.
  - unfold Training.merkle_levels.
    now rewrite build_levels_head, padded_leaves_spec.
  - unfold Training.merkle_levels.
    now rewrite build_levels_head, padded_leaves_length.
Qed.

Lemma level0_padding_witness :
  1 <= length [5; 6; 7]%Z /\
  length [5; 6; 7]%Z <= 4 < 2 * length [5; 6; 7]%Z /\
  (exists t,
     Balance.init [5; 6; 7]%Z = Ok t /\
     Balance.padded_n t = 4 /\
     nth 0 (Balance.tree t) []
     = map Balance.poseidon_hash_single [5; 6; 7]%Z
       ++ repeat (Balance.poseidon_hash_single 0) 1 /\
     length (nth 0 (Balance.tree t) []) = 4) /\
  nth 0 (Training.merkle_levels [5; 6; 7]%Z) [] = [5; 6; 7]%Z ++ repeat 0%Z 1 /\
  length (nth 0 (Training.merkle_levels [5; 6; 7]%Z) []) = 4.
Proof.
  split; [simpl; lia |].
  apply (level0_padding [5; 6; 7]%Z). simpl; lia.
Defined.

(** C5, as stated, fails: neither generator rejects an empty leaf sequence.
    [MerkleTree([])] is a tree of depth 0 over one padding node, and
    [build_merkle_tree([])] returns the root [0] with no proofs. *)
Lemma empty_input_counterexample :
  (exists t, Balance.init [] = Ok t /\ Balance.root t = 987654321%Z) /\
  exists out, Training.build_merkle_tree [] = Ok out.
Proof.
  split; eexists; [split |]; vm_compute; reflexivity.
Qed.

(** C5, amended. Building a Merkle tree never fails in the balance
    generator, whatever the leaves; from an empty sequence it produces the
    one-level tree whose only node and root is [hash(0)], with [n = 0],
    depth 0 and padded size 1, and the training generator produces the
    root [0] and empty proof lists. *)
Theorem empty_input_builds :
  (forall leaves, exists t, Balance.init leaves = Ok t) /\
  Balance.init []
  = Ok (Balance.mkMerkleTree [] 0 0 1
          [Balance.poseidon_hash_single 0] [[Balance.poseidon_hash_single 0]]
          (Balance.poseidon_hash_single 0)) /\
  Balance.poseidon_hash_single 0 = 987654321%Z /\
  Training.build_merkle_tree [] = Ok (0%Z, [], []).
Proof.
  split; [intros leaves; eexists; apply init_spec |].
  repeat split; vm_compute; reflexivity.
Qed.

(** C9. Level 0 has [2 ^ ceil(log2(n))] nodes, so in both generators, for
    every leaf count [n >= 1], the tree has [ceil(log2(n)) + 1] levels, each
    level below the root has an even number of nodes, exactly twice that of
    the next level, and the guard [i + 1 < len(current_level)] holds at
    every index the building loop visits: the boundary branches (duplicate
    the lone node, or fill with zero) are never taken. *)
Theorem boundary_branch_unreachable (leaves : list Z) :
  1 <= length leaves ->
  let d := Nat.log2_up (length leaves) in
  (exists t,
     Balance.init leaves = Ok t /\
     Balance.depth t = d /\
     length (nth 0 (Balance.tree t) []) = 2 ^ d /\
     halving_shape Balance.has_right (Balance.tree t) d) /\
  length (nth 0 (Training.merkle_levels leaves) []) = 2 ^ d /\
  halving_shape Training.has_right (Training.merkle_levels leaves) d.
Proof.
  intros _ d. split; [| split].
  - eexists. split; [apply init_spec |].
    cbn [Balance.depth Balance.tree]. split; [reflexivity |].
    split; [now rewrite build_tree_head, padded_hashes_length |].
    destruct (pow2_levels_shape Balance.next_level Balance._build_tree
                next_level_length build_tree_small build_tree_step
                d (padded_hashes leaves) (padded_hashes_length leaves))
      as [Hlen [Htop Hlev]].
    split; [exact Hlen |]. split; [exact Htop |].
    intros k Hk. destruct (Hlev k Hk) as [Hev [Hhalf Hguard]].
    split; [exact Hev |]. split; [exact Hhalf |].
    intros i Hi. apply Nat.ltb_lt. now apply Hguard.
  - unfold Training.merkle_levels.
    now rewrite build_levels_head, padded_leaves_length.
  - destruct (pow2_levels_shape Training.next_level Training.build_levels
                training_next_level_length build_levels_small
                build_levels_step
                d (Training.padded_leaves leaves)
                (padded_leaves_length leaves))
      as [Hlen [Htop Hlev]].
    split; [exact Hlen |]. split; [exact Htop |].
    intros k Hk. destruct (Hlev k Hk) as [Hev [Hhalf Hguard]].
    split; [exact Hev |]. split; [exact Hhalf |].
    intros i Hi. apply Nat.ltb_lt. now apply Hguard.
Qed.

Lemma boundary_branch_unreachable_witness :
  1 <= length [5; 6; 7]%Z /\
  (exists t,
     Balance.init [5; 6; 7]%Z = Ok t /\
     Balance.depth t = 2 /\
     length (nth 0 (Balance.tree t) []) = 4 /\
     halving_shape Balance.has_right (Balance.tree t) 2) /\
  length (nth 0 (Training.merkle_levels [5; 6; 7]%Z) []) = 4 /\
  halving_shape Training.has_right (Training.merkle_levels [5; 6; 7]%Z) 2.
Proof.
  split; [simpl; lia |].
  apply (boundary_branch_unreachable [5; 6; 7]%Z). simpl; lia.
Defined.

Section Binary64Claims.

Import PrimFloat SpecFloat FloatOps.
Import Binary64.
Import QArith_base.
Local Open Scope float_scope.







(** C7, as stated, fails: [clip_gradient] has no check of the threshold.
    With [tau = 0] the vector [[3, 4]] of norm 5 is returned scaled by
    [0 / 5], that is as [[0, 0]]. *)
Lemma invalid_threshold_counterexample :
  (0 <=? 0) = true /\
  compute_l2_norm reference [3; 4] = 5 /\
  clip_gradient reference [3; 4] 0 = Ok [0; 0].
Proof.
  repeat split; vm_compute; reflexivity.
Qed.

(** C7, amended. [clip_gradient] does not validate the threshold. For
    [tau <= 0], which is either zero or negative, and a vector with computed
    norm [g]: when [g] is NaN, exactly when a component is NaN, the vector
    is returned unchanged; when [g] is a number other than zero the vector
    is returned with every component multiplied by [tau / g]; when [g] is
    zero, as it is when every square is zero or underflows to zero, the
    vector is returned unchanged for [tau = 0], and for [tau < 0] the
    division [tau / g] raises [ZeroDivisionError], the only failure. *)
Theorem clip_gradient_nonpositive_threshold (rt : Runtime) (v : list float)
    (tau : float) :
  runtime_laws rt ->
  (tau <=? 0) = true ->
  let g := compute_l2_norm rt v in
  (tau =? 0) = negb (tau <? 0) /\
  is_NaN g = existsb is_NaN v /\
  (is_NaN g = true -> clip_gradient rt v tau = Ok v) /\
  (is_NaN g = false -> (g =? 0) = false ->
   clip_gradient rt v tau = Ok (map (fun c => tau / g * c) v)) /\
  ((g =? 0) = true -> (tau =? 0) = true -> clip_gradient rt v tau = Ok v) /\
  ((g =? 0) = true -> (tau <? 0) = true ->
   clip_gradient rt v tau = Raise ZeroDivisionError) /\
  (Forall (fun c => c * c = 0) v -> g = 0).
Proof.
  intros laws Htau g.
  assert (Hnn : is_NaN g = false -> is_nonneg g = true).
  { intros Hg. apply l2_norm_nonneg; [exact laws |].
    rewrite <- (l2_norm_NaN rt laws). exact Hg. }
  assert (Hzero : (g =? 0) = true -> is_nonneg g = true)
    by (intros Hz; now apply Hnn, eqb_zero_not_NaN).
  split; [now apply nonpositive_cases |].
  split; [now apply l2_norm_NaN |].
  split; [| split; [| split; [| split]]].
  - intros Hg. apply clip_gradient_small. now apply ltb_NaN_r.
  - intros Hg Hnz. apply clip_gradient_large; [| exact Hnz]. fold g.
    now rewrite (below_nonpositive tau g Htau (Hnn Hg)), Hnz.
  - intros Hz Ht. apply clip_gradient_small. fold g.
    rewrite (below_nonpositive tau g Htau (Hzero Hz)), Hz.
    now apply zero_not_below_zero.
  - intros Hz Ht. apply clip_gradient_zero_norm; [| exact Hz]. fold g.
    now rewrite (below_nonpositive tau g Htau (Hzero Hz)), Hz.
  - now apply l2_norm_underflow.
Qed.

(** With left-to-right addition and the square root: the threshold [-1] on
    [[3, 4]], which comes back reversed, and on [[2^-600, 2^-600]], whose
    squares underflow; the threshold [-0.0] on the zero vector. *)
Lemma clip_gradient_nonpositive_threshold_witness :
  (-1 <=? 0) = true /\
  (clip_gradient reference [3; 4] (-1)
   = Ok [-0x1.3333333333334p-1; -0x1.999999999999ap-1]) /\
  (Forall (fun c => c * c = 0) [0x1p-600; 0x1p-600] /\
   clip_gradient reference [0x1p-600; 0x1p-600] (-1)
   = Raise ZeroDivisionError) /\
  ((-0 <=? 0) = true /\ clip_gradient reference [0; 0] (-0) = Ok [0; 0]).
Proof.
  split; [reflexivity |]. split; [| split].
  - destruct (clip_gradient_nonpositive_threshold reference [3; 4] (-1)
                reference_laws eq_refl) as (_ & _ & _ & H & _).
    rewrite H by reflexivity. reflexivity.
  - destruct (clip_gradient_nonpositive_threshold reference
                [0x1p-600; 0x1p-600] (-1) reference_laws eq_refl)
      as (_ & _ & _ & _ & _ & H & _).
    assert (Hsq : Forall (fun c => c * c = 0) [0x1p-600; 0x1p-600])
      by (repeat constructor).
    split; [exact Hsq |].
    apply H; [| reflexivity].
    rewrite (l2_norm_underflow reference reference_laws _ Hsq). reflexivity.
  - destruct (clip_gradient_nonpositive_threshold reference [0; 0] (-0)
                reference_laws eq_refl) as (_ & _ & _ & _ & H & _).
    split; [reflexivity |]. now apply H.
Defined.

End Binary64Claims.

Section NumericClaims.

Import Numeric.
Local Open Scope R_scope.



End NumericClaims.

(** * Further properties of the code *)

Section BalanceExtras.

Import Balance.

Lemma last_In {A : Type} (l : list A) (d : A) : l <> [] -> In (last l d) l.
Proof.
  intros H. destruct (exists_last H) as [l' [x ->]].
  rewrite last_last. apply in_or_app. right. now left.
Qed.

(** X1. Every node of every level of a tree of the balance generator, its
    root included, is a field element below [PRIME]; so is every sibling of
    every proof that [get_proof] returns, and every path index it returns
    is 0 or 1. *)
Theorem tree_nodes_in_field (leaves : list Z) (t : MerkleTree) :
  init leaves = Ok t ->
  Forall (Forall in_field) (tree t) /\
  in_field (root t) /\
  forall index siblings path_indices,
    get_proof t index = Ok (siblings, path_indices) ->
    Forall in_field siblings /\ Forall is_bit path_indices.
Proof.
  rewrite init_spec. intros [= <-]. cbn [tree root].
  assert (Htree : Forall (Forall in_field) (_build_tree (padded_hashes leaves)))
    by apply build_tree_in_field, padded_hashes_in_field.
  split; [exact Htree |]. split.
  - rewrite Forall_forall in Htree.
    specialize (Htree _ (last_In _ [] (build_tree_nonempty _))).
    rewrite Forall_forall in Htree. apply Htree, nth_In.
    rewrite build_tree_last, padded_hashes_length.
    pose proof (pow2_pos (Nat.log2_up (length leaves))). lia.
  - intros index s p. unfold get_proof. cbn [n tree depth].
    destruct (_ <=? _)%Z; [discriminate |]. intros H.
    apply get_proof_loop_trace in H.
    destruct H as [sl [-> [-> [Hlen Hall]]]]. cbn [app]. split.
    + apply Forall_forall. intros x Hx.
      destruct (In_nth _ _ 0%Z Hx) as [j [Hj <-]].
      destruct (Hall j ltac:(lia)) as [lvl [Hlvl Hsib]].
      apply py_getitem_In in Hlvl. apply sibling_at_In in Hsib.
      rewrite Forall_forall in Htree. specialize (Htree _ Hlvl).
      rewrite Forall_forall in Htree. now apply Htree.
    + apply index_bits_are_bits.
Qed.

Lemma tree_nodes_in_field_witness :
  exists t,
    init labels8 = Ok t /\
    Forall (Forall in_field) (tree t) /\
    in_field (root t) /\
    forall index siblings path_indices,
      get_proof t index = Ok (siblings, path_indices) ->
      Forall in_field siblings /\ Forall is_bit path_indices.
Proof.
  eexists. split; [vm_compute; reflexivity |].
  apply (tree_nodes_in_field labels8). vm_compute; reflexivity.
Defined.

(** X2. With the mock hash, whose value on a pair only depends on the sum
    of the pair, [verify_merkle_proof] does not look at the direction bits:
    two lists of path indices of the same length give the same verdict, so
    a valid proof stays valid when any of its path indices is flipped. *)
Theorem verify_ignores_path_indices (leaf_value : Z)
    (siblings path_indices path_indices' : list Z) (root : Z) :
  length path_indices = length path_indices' ->
  verify_merkle_proof leaf_value siblings path_indices root
  = verify_merkle_proof leaf_value siblings path_indices' root.
Proof.
  intros Hlen. unfold verify_merkle_proof. f_equal.
  generalize (poseidon_hash_single leaf_value) as cur.
  revert path_indices path_indices' Hlen.
  induction siblings as [| sib s IH]; intros [| b p] [| b' p'] Hlen cur;
    try reflexivity; try discriminate.
  cbn [combine fold_left].
  replace (verify_step cur (sib, b')) with (verify_step cur (sib, b)).
  - apply IH. now injection Hlen.
  - unfold verify_step.
    destruct (truthy b), (truthy b'); auto using poseidon_hash_pair_comm.
Qed.

Lemma verify_ignores_path_indices_witness :
  length [0; 1; 0]%Z = length [1; 1; 1]%Z /\
  verify_merkle_proof 1
    [987654321; 2440176007559824; 6027003218553496689000]%Z [0; 1; 0]%Z
    14879155514510647542103635200
  = verify_merkle_proof 1
      [987654321; 2440176007559824; 6027003218553496689000]%Z [1; 1; 1]%Z
      14879155514510647542103635200.
Proof.
  split; [reflexivity |].
  apply (verify_ignores_path_indices 1 _ [0; 1; 0]%Z [1; 1; 1]%Z).
  reflexivity.
Defined.

(** X3. For an index [0 <= index < n], the path indices that [get_proof]
    returns are the binary digits of the index, least significant first,
    and the sibling it returns for level [k] is the node of that level at
    the index [(index >> k) ^ 1]: in a tree built by [__init__] the
    boundary case of the sibling lookup does not occur. *)
Theorem get_proof_records_bits (leaves : list Z) (t : MerkleTree)
    (index : Z) (siblings path_indices : list Z) :
  init leaves = Ok t ->
  (0 <= index < Z.of_nat (length leaves))%Z ->
  get_proof t index = Ok (siblings, path_indices) ->
  path_indices = index_bits index (depth t) /\
  forall k, k < depth t ->
    py_getitem (nth k (tree t) []) (Z.lxor (index / 2 ^ Z.of_nat k) 1)
    = Ok (nth k siblings 0%Z).
Proof.
  rewrite init_spec. intros [= <-] Hi. unfold get_proof. cbn [n tree depth].
  destruct (Z.leb_spec (Z.of_nat (length leaves)) index) as [Hge | _];
    [lia |].
  intros H. apply get_proof_loop_trace in H.
  destruct H as [sl [-> [-> [Hlen Hall]]]]. cbn [app].
  split; [reflexivity |]. intros k Hk.
  destruct (Hall k Hk) as [lvl [Hlvl Hsib]]. cbn [Nat.add] in Hlvl.
  set (d := Nat.log2_up (length leaves)) in *.
  assert (Hk' : k < length (_build_tree (padded_hashes leaves)))
    by (rewrite padded_tree_length; fold d; lia).
  rewrite (py_getitem_nat _ _ [] Hk') in Hlvl. injection Hlvl as <-.
  pose proof (padded_tree_level_length leaves k ltac:(fold d; lia)) as Hl.
  fold d in Hl.
  set (c := (index / 2 ^ Z.of_nat k)%Z) in *.
  assert (Hc : (0 <= c < Z.of_nat (2 ^ (d - k)))%Z).
  { unfold c. pose proof (le_pow2_log2_up (length leaves)) as Hpad. fold d in Hpad.
    assert (Hp : (0 < 2 ^ Z.of_nat k)%Z) by (apply Z.pow_pos_nonneg; lia).
    split; [apply Z.div_pos; lia |].
    apply Z.div_lt_upper_bound; [exact Hp |].
    replace (2 ^ Z.of_nat k * Z.of_nat (2 ^ (d - k)))%Z with (Z.of_nat (2 ^ d));
      [lia |].
    rewrite !Nat2Z.inj_pow, <- Z.pow_add_r by lia.
    cbn [Z.of_nat]. f_equal. lia. }
  rewrite sibling_at_xor in Hsib by lia. rewrite Hl in Hsib.
  replace (d - k) with (S (d - S k)) in * by lia.
  rewrite Nat.pow_succ_r' in *.
  rewrite <- sibling_index_xor in * by lia. unfold truthy in *.
  revert Hsib. destruct (Z.eqb_spec (c mod 2) 0) as [He | Ho]; cbn [negb];
    match goal with
    | |- context [(?a <? ?b)%Z] => destruct (Z.ltb_spec a b) as [Hlt | Hge]
    end; auto; lia.
Qed.

Lemma get_proof_records_bits_witness :
  exists t,
    init labels8 = Ok t /\
    [0; 1; 0]%Z = index_bits 2 (depth t) /\
    forall k, k < depth t ->
      py_getitem (nth k (tree t) []) (Z.lxor (2 / 2 ^ Z.of_nat k) 1)
      = Ok (nth k [987654321; 2440176007559824; 6027003218553496689000]%Z
                0%Z).
Proof.
  eexists. split; [vm_compute; reflexivity |].
  apply (get_proof_records_bits labels8 _ 2
           [987654321; 2440176007559824; 6027003218553496689000]%Z
           [0; 1; 0]%Z).
  - vm_compute; reflexivity.
  - simpl; lia.
  - vm_compute; reflexivity.
Defined.

(** X4. The outcome of [get_proof] for every integer index of a tree with
    at least two leaves: [ValueError] from [n] upward, a proof with one step
    per level from [-padded_n] to [n - 1], and [IndexError], raised by the
    sibling lookup on the leaf level, below [-padded_n]. With at most one
    leaf the depth is 0, the loop does not run, and every index below [n]
    gets the empty proof. *)
Theorem get_proof_outcome (leaves : list Z) (t : MerkleTree) (index : Z) :
  init leaves = Ok t ->
  ((Z.of_nat (n t) <= index)%Z -> get_proof t index = Raise ValueError) /\
  ((- Z.of_nat (padded_n t) <= index < Z.of_nat (n t))%Z ->
   exists siblings path_indices,
     get_proof t index = Ok (siblings, path_indices) /\
     length siblings = depth t /\ length path_indices = depth t) /\
  ((index < - Z.of_nat (padded_n t))%Z -> 2 <= n t ->
   get_proof t index = Raise IndexError) /\
  ((index < Z.of_nat (n t))%Z -> n t <= 1 ->
   get_proof t index = Ok ([], [])).
Proof.
  rewrite init_spec. intros [= <-].
  unfold get_proof. cbn [n tree depth padded_n].
  pose proof (le_pow2_log2_up (length leaves)) as Hpad.
  set (d := Nat.log2_up (length leaves)) in *.
  split; [| split; [| split]].
  - intros Hi.
    destruct (Z.leb_spec (Z.of_nat (length leaves)) index); [reflexivity | lia].
  - intros Hi.
    destruct (Z.leb_spec (Z.of_nat (length leaves)) index); [lia |].
    apply get_proof_loop_padded. fold d. lia.
  - intros Hi Hn.
    destruct (Z.leb_spec (Z.of_nat (length leaves)) index); [lia |].
    pose proof (Nat.log2_up_pos (length leaves) ltac:(lia)) as Hd. fold d in Hd.
    destruct d as [| d'] eqn:Ed; [lia |].
    cbn [seq get_proof_loop].
    rewrite (py_getitem_nat _ 0 []) by (rewrite padded_tree_length; lia).
    cbn [bind]. rewrite build_tree_head, sibling_at_below; [reflexivity | |].
    + rewrite padded_hashes_length. fold d. rewrite Ed, Nat.pow_succ_r'. lia.
    + rewrite padded_hashes_length. fold d. rewrite Ed. exact Hi.
  - intros Hi Hn.
    destruct (Z.leb_spec (Z.of_nat (length leaves)) index); [lia |].
    unfold d. rewrite Nat.log2_up_eqn0 by assumption. reflexivity.
Qed.

Lemma get_proof_outcome_witness :
  exists t,
    init [5; 6; 7]%Z = Ok t /\
    get_proof t 3 = Raise ValueError /\
    (exists siblings path_indices,
       get_proof t (-4) = Ok (siblings, path_indices) /\
       length siblings = depth t /\ length path_indices = depth t) /\
    get_proof t (-5) = Raise IndexError.
Proof.
  eexists. split; [vm_compute; reflexivity |].
  split; [| split].
  - apply (get_proof_outcome [5; 6; 7]%Z _ 3); [vm_compute; reflexivity |].
    simpl; lia.
  - apply (get_proof_outcome [5; 6; 7]%Z _ (-4)); [vm_compute; reflexivity |].
    simpl; lia.
  - apply (get_proof_outcome [5; 6; 7]%Z _ (-5)); [vm_compute; reflexivity | |].
    + simpl; lia.
    + simpl; lia.
Defined.

(** X5. With the mock hash the root does not bind the order inside a
    sibling pair: exchanging the two leaves at the positions [2j] and
    [2j + 1] of any dataset gives a tree with the same root. *)
Theorem swap_sibling_leaves_same_root (before after : list Z) (a b : Z) :
  Nat.even (length before) = true ->
  exists t t',
    init (before ++ a :: b :: after) = Ok t /\
    init (before ++ b :: a :: after) = Ok t' /\
    root t = root t'.
Proof.
  intros Hev. do 2 eexists. split; [apply init_spec |].
  split; [apply init_spec |]. cbn [root].
  assert (Hlen : length (before ++ b :: a :: after)
                 = length (before ++ a :: b :: after))
    by (rewrite !length_app; reflexivity).
  assert (Hshape : forall x y,
            padded_hashes (before ++ x :: y :: after)
            = map poseidon_hash_single before
              ++ poseidon_hash_single x :: poseidon_hash_single y
                 :: (map poseidon_hash_single after
                     ++ repeat (poseidon_hash_single 0)
                          (2 ^ Nat.log2_up (length (before ++ a :: b :: after))
                           - length (before ++ a :: b :: after)))).
  { intros x y. unfold padded_hashes.
    replace (length (before ++ x :: y :: after))
      with (length (before ++ a :: b :: after))
      by (rewrite !length_app; reflexivity).
    rewrite map_app. cbn [map]. rewrite <- app_assoc. reflexivity. }
  assert (Hbig : forall x y,
            1 < length (padded_hashes (before ++ x :: y :: after))).
  { intros x y. rewrite Hshape, length_app. cbn [length]. lia. }
  rewrite (build_tree_step _ (Hbig a b)), (build_tree_step _ (Hbig b a)).
  rewrite !last_cons_ne by apply build_tree_nonempty.
  rewrite !Hshape, next_level_swap by now rewrite length_map.
  reflexivity.
Qed.

Lemma swap_sibling_leaves_same_root_witness :
  Nat.even (length [1; 0]%Z) = true /\
  exists t t',
    init ([1; 0] ++ 0 :: 1 :: [1])%Z = Ok t /\
    init ([1; 0] ++ 1 :: 0 :: [1])%Z = Ok t' /\
    root t = root t'.
Proof.
  split; [reflexivity |].
  apply (swap_sibling_leaves_same_root [1; 0]%Z [1]%Z 0 1). reflexivity.
Defined.

(** X6. The fixture that the body of [generate_test_data] builds from any
    list of labels passes [test_verification]: building the dictionary
    raises nothing, every decimal string in it is read back as the integer
    it was printed from, and each of the proofs verifies, so the answer
    is [True]. *)
Theorem fixture_passes_verification (labels : list Z) :
  exists circuit_input,
    circuit_input_of labels = Ok circuit_input /\
    length (ci_bits circuit_input) = length labels /\
    length (ci_siblings circuit_input) = length labels /\
    length (ci_pathIndices circuit_input) = length labels /\
    test_verification circuit_input = Ok true.
Proof.
  destruct (circuit_input_of_ok labels) as [t [proofs [Ht [Hlen [Hnth Hci]]]]].
  eexists. split; [exact Hci |].
  cbn [ci_bits ci_siblings ci_pathIndices]. rewrite !length_map.
  repeat (split; [assumption || reflexivity |]).
  unfold test_verification. cbn [ci_root ci_bits].
  rewrite py_int_of_str_py_str. cbn [bind].
  rewrite map_result_parse. cbn [bind].
  apply verification_loop_true. intros i Hi. apply in_seq in Hi.
  assert (Hi' : i < length labels) by lia.
  destruct (get_proof_verifies_nat labels i Hi')
    as [t' [s [p [Ht' [Hg Hv]]]]].
  rewrite Ht in Ht'. injection Ht' as <-.
  specialize (Hnth i Hi'). rewrite Hg in Hnth. injection Hnth as Hnth.
  cbn [ci_siblings ci_pathIndices].
  destruct (map_result_parse_nested (map fst proofs) i) as [ss [Hs1 Hs2]];
    [now rewrite length_map, Hlen |].
  destruct (map_result_parse_nested (map snd proofs) i) as [ps [Hp1 Hp2]];
    [now rewrite length_map, Hlen |].
  assert (Hfst : nth i (map fst proofs) [] = s)
    by now rewrite nth_map_fst, <- Hnth.
  assert (Hsnd : nth i (map snd proofs) [] = p)
    by now rewrite nth_map_snd, <- Hnth.
  rewrite Hfst in Hs2. rewrite Hsnd in Hp2.
  exists ss, s, ps, p, (nth i labels 0%Z).
  repeat (split; [assumption |]).
  split; [now apply py_getitem_nat | exact Hv].
Qed.

(** X7. In the fixture of [generate_test_data], the public counts [c0] and
    [c1] add up to [N_public] exactly when every label is 0 or 1; with any
    other label in the dataset they add up to less. *)
Theorem fixture_counts_add_up (labels : list Z) :
  exists circuit_input c0 c1 N,
    circuit_input_of labels = Ok circuit_input /\
    py_int_of_str (ci_c0 circuit_input) = Ok c0 /\
    py_int_of_str (ci_c1 circuit_input) = Ok c1 /\
    py_int_of_str (ci_N_public circuit_input) = Ok N /\
    N = Z.of_nat (length labels) /\
    (c0 + c1 <= N)%Z /\
    ((c0 + c1 = N)%Z <-> Forall is_bit labels).
Proof.
  destruct (circuit_input_of_ok labels) as [t [proofs [_ [_ [_ Hci]]]]].
  eexists. exists (py_count labels 0), (py_count labels 1),
             (Z.of_nat (length labels)).
  split; [exact Hci |]. cbn [ci_c0 ci_c1 ci_N_public].
  rewrite !py_int_of_str_py_str.
  destruct (count_bits labels) as [Hle Hiff]. unfold py_count.
  repeat (split; [reflexivity || lia |]).
  split; intros H; [apply Hiff; lia | apply Hiff in H; lia].
Qed.

(** X15. [verify_merkle_proof] walks [zip(siblings, path_indices)]: what
    either list holds beyond the length of the other is ignored, and a
    proof whose two lists differ in length is not rejected for it. With no
    path index at all the verdict is whether the hash of the leaf is the
    root, whatever the siblings are. *)
Theorem verify_truncates_to_shorter (leaf_value : Z)
    (siblings path_indices : list Z) (root : Z) :
  let m := Nat.min (length siblings) (length path_indices) in
  verify_merkle_proof leaf_value siblings path_indices root
  = verify_merkle_proof leaf_value (firstn m siblings)
      (firstn m path_indices) root /\
  verify_merkle_proof leaf_value siblings [] root
  = (poseidon_hash_single leaf_value =? root)%Z.
Proof.
  intros m. unfold verify_merkle_proof. split.
  - do 2 f_equal. rewrite <- combine_firstn.
    symmetry. apply firstn_all2. rewrite length_combine. reflexivity.
  - now rewrite combine_nil.
Qed.

(** X16. The root of the balance generator does not bind the size of the
    dataset: the padding node is the hash of the label 0, so appending the
    label 0 to a dataset whose size is not the padded size gives the same
    tree and the same root. *)
Theorem appended_zero_label_same_root (leaves : list Z) :
  length leaves < 2 ^ Nat.log2_up (length leaves) ->
  exists t t',
    init leaves = Ok t /\
    init (leaves ++ [0%Z]) = Ok t' /\
    n t' = S (n t) /\
    tree t' = tree t /\
    root t' = root t.
Proof.
  intros Hn. do 2 eexists. split; [apply init_spec |].
  split; [apply init_spec |]. cbn [n tree root].
  rewrite (padded_hashes_snoc_zero _ Hn), length_app. cbn [length].
  repeat split. lia.
Qed.

Lemma appended_zero_label_same_root_witness :
  length [0; 1; 1]%Z < 2 ^ Nat.log2_up (length [0; 1; 1]%Z) /\
  exists t t',
    init [0; 1; 1]%Z = Ok t /\
    init ([0; 1; 1] ++ [0])%Z = Ok t' /\
    n t' = S (n t) /\
    tree t' = tree t /\
    root t' = root t.
Proof.
  split; [cbn; lia |].
  apply (appended_zero_label_same_root [0; 1; 1]%Z). cbn; lia.
Defined.

End BalanceExtras.

Section TrainingExtras.

Import Training.

(** X8. [build_merkle_tree] raises for no list of leaves. It returns one
    list of siblings and one list of path indices per original leaf, each
    with [ceil(log2(n))] entries, and the path indices of leaf [i] are the
    binary digits of [i], least significant first. *)
Theorem build_merkle_tree_total (leaves : list Z) :
  let d := Nat.log2_up (length leaves) in
  exists root siblings_list indices_list,
    build_merkle_tree leaves = Ok (root, siblings_list, indices_list) /\
    length siblings_list = length leaves /\
    length indices_list = length leaves /\
    forall i, i < length leaves ->
      length (nth i siblings_list []) = d /\
      nth i indices_list [] = index_bits (Z.of_nat i) d.
Proof.
  intros d. destruct (build_merkle_tree_ok leaves) as [proofs [H [Hlen Hall]]].
  do 3 eexists. split; [exact H |]. rewrite !length_map.
  split; [exact Hlen |]. split; [exact Hlen |].
  intros i Hi. destruct (Hall i Hi) as [H1 [H2 _]].
  rewrite nth_map_fst, nth_map_snd. auto.
Qed.

(** X9. The proofs of [build_merkle_tree] are valid paths: starting from
    the leaf as it was given (the tree does not hash it) and combining it
    with each recorded sibling, on the side that the path index tells,
    gives the returned root. *)
Theorem training_paths_reach_root (leaves : list Z) (root : Z)
    (siblings_list indices_list : list (list Z)) (i : nat) :
  build_merkle_tree leaves = Ok (root, siblings_list, indices_list) ->
  i < length leaves ->
  fold_left training_step
    (combine (nth i siblings_list []) (nth i indices_list []))
    (nth i leaves 0%Z)
  = root.
Proof.
  destruct (build_merkle_tree_ok leaves) as [proofs [H [Hlen Hall]]].
  rewrite H. intros [= <- <- <-] Hi.
  destruct (Hall i Hi) as [_ [_ Hfold]].
  rewrite nth_map_fst, nth_map_snd. exact Hfold.
Qed.

Lemma training_paths_reach_root_witness :
  exists root siblings_list indices_list,
    build_merkle_tree [11; 22; 33]%Z = Ok (root, siblings_list, indices_list) /\
    2 < length [11; 22; 33]%Z /\
    fold_left training_step
      (combine (nth 2 siblings_list []) (nth 2 indices_list [])) 33%Z
    = root.
Proof.
  do 3 eexists. split; [vm_compute; reflexivity |].
  split; [simpl; lia |].
  apply (training_paths_reach_root [11; 22; 33]%Z _ _ _ 2);
    [vm_compute; reflexivity | simpl; lia].
Defined.

(** X10. What the root of [build_merkle_tree] is: 0 for no leaf, the leaf
    itself, not hashed, for a single leaf, and a hash value below
    [2 ** 251] from two leaves on. *)
Theorem training_root_cases (leaves : list Z) :
  exists root siblings_list indices_list,
    build_merkle_tree leaves = Ok (root, siblings_list, indices_list) /\
    (length leaves = 0 -> root = 0%Z) /\
    (length leaves = 1 -> root = nth 0 leaves 0%Z) /\
    (2 <= length leaves -> (0 <= root < 2 ^ 251)%Z).
Proof.
  destruct (build_merkle_tree_ok leaves) as [proofs [H [Hlen Hall]]].
  do 3 eexists. split; [exact H |].
  destruct (merkle_levels_shape leaves) as [Hl Hlev].
  rewrite merkle_levels_top.
  split; [| split].
  - intros Hn. destruct leaves; [reflexivity | discriminate].
  - intros Hn. destruct leaves as [| x [| y l]]; try discriminate.
    reflexivity.
  - intros Hn.
    pose proof (Nat.log2_up_pos (length leaves) ltac:(lia)) as Hd.
    destruct (Nat.log2_up (length leaves)) as [| d] eqn:Ed; [lia |].
    unfold merkle_levels in *.
    rewrite build_levels_chain by lia.
    rewrite nth_training_next_level.
    + apply poseidon_hash_range.
    + rewrite Hlev by lia. replace (S d - d) with 1 by lia. cbn. lia.
Qed.

(** X11. The hash of the training generator concatenates the decimal
    digits of its inputs without a separator, so it does not bind where one
    input ends: for [a > 0] and a digit [d] from 1 to 9, the different leaf
    lists [[a, 10 * d]] and [[10 * a + d, 0]] have the same hash and the
    same Merkle root. *)
Theorem training_root_collision (a d : Z) :
  (0 < a)%Z -> (1 <= d <= 9)%Z ->
  [a; 10 * d]%Z <> [10 * a + d; 0]%Z /\
  poseidon_hash [a; 10 * d]%Z = poseidon_hash [10 * a + d; 0]%Z /\
  exists root siblings_list indices_list siblings_list' indices_list',
    build_merkle_tree [a; 10 * d]%Z
    = Ok (root, siblings_list, indices_list) /\
    build_merkle_tree [10 * a + d; 0]%Z
    = Ok (root, siblings_list', indices_list').
Proof.
  intros Ha Hd. split.
  { intros H.
    assert (H2 : (10 * d = 0)%Z)
      by (apply (f_equal (fun l => nth 1 l 0%Z)) in H; exact H).
    lia. }
  split; [now apply poseidon_hash_moved_digit |].
  destruct (build_merkle_tree_ok [a; 10 * d]%Z) as [p1 [H1 _]].
  destruct (build_merkle_tree_ok [10 * a + d; 0]%Z) as [p2 [H2 _]].
  rewrite merkle_levels_pair in H1, H2. cbn [last nth] in H1, H2.
  rewrite <- (poseidon_hash_moved_digit a d Ha Hd) in H2.
  eauto 10.
Qed.

Lemma training_root_collision_witness :
  (0 < 1)%Z /\ (1 <= 2 <= 9)%Z /\
  [1; 20]%Z <> [12; 0]%Z /\
  poseidon_hash [1; 20]%Z = poseidon_hash [12; 0]%Z /\
  exists root siblings_list indices_list siblings_list' indices_list',
    build_merkle_tree [1; 20]%Z = Ok (root, siblings_list, indices_list) /\
    build_merkle_tree [12; 0]%Z = Ok (root, siblings_list', indices_list').
Proof.
  split; [lia |]. split; [lia |].
  apply (training_root_collision 1 2); lia.
Defined.

(** X12. The two generators agree on the shape of their proofs: for the
    same leaves, the depth loop of [MerkleTree.__init__] and the size loop
    of [build_merkle_tree] give the same depth and the same padded size,
    and for every leaf the path indices of [get_proof] are the path indices
    of [build_merkle_tree]. *)
Theorem generators_agree_on_paths (leaves : list Z) (i : nat) :
  i < length leaves ->
  exists t siblings path_indices root siblings_list indices_list,
    Balance.init leaves = Ok t /\
    Balance.get_proof t (Z.of_nat i) = Ok (siblings, path_indices) /\
    build_merkle_tree leaves = Ok (root, siblings_list, indices_list) /\
    Balance.depth t = snd (size_loop (length leaves) 1 0) /\
    Balance.padded_n t = Pos.to_nat (fst (size_loop (length leaves) 1 0)) /\
    nth i indices_list [] = path_indices.
Proof.
  intros Hi.
  destruct (get_proof_verifies_nat leaves i Hi) as [t [s [p [Ht [Hg _]]]]].
  destruct (build_merkle_tree_ok leaves) as [proofs [H [Hlen Hall]]].
  destruct (Hall i Hi) as [_ [Hbits _]].
  destruct (size_loop_spec (length leaves)) as [size [Hsize Hpow]].
  exists t, s, p. do 3 eexists.
  split; [exact Ht |]. split; [exact Hg |]. split; [exact H |].
  rewrite Hsize. cbn [fst snd]. rewrite init_spec in Ht. injection Ht as <-.
  cbn [Balance.depth Balance.padded_n]. split; [reflexivity |].
  split; [now rewrite Hpow |].
  rewrite nth_map_snd, Hbits.
  unfold Balance.get_proof in Hg. cbn [Balance.n Balance.tree Balance.depth] in Hg.
  destruct (_ <=? _)%Z; [discriminate |].
  apply get_proof_loop_trace in Hg. destruct Hg as [sl [_ [-> _]]].
  reflexivity.
Qed.

Lemma generators_agree_on_paths_witness :
  1 < length [5; 6; 7]%Z /\
  exists t siblings path_indices root siblings_list indices_list,
    Balance.init [5; 6; 7]%Z = Ok t /\
    Balance.get_proof t (Z.of_nat 1) = Ok (siblings, path_indices) /\
    build_merkle_tree [5; 6; 7]%Z = Ok (root, siblings_list, indices_list) /\
    Balance.depth t = snd (size_loop (length [5; 6; 7]%Z) 1 0) /\
    Balance.padded_n t
    = Pos.to_nat (fst (size_loop (length [5; 6; 7]%Z) 1 0)) /\
    nth 1 indices_list [] = path_indices.
Proof.
  split; [simpl; lia |].
  apply (generators_agree_on_paths [5; 6; 7]%Z 1). simpl; lia.
Defined.

(** X17. The root of the training generator does not bind the number of
    leaves either: the padding is the raw value 0, so appending a leaf 0 to
    a list whose length is not the padded size gives the same root. *)
Theorem appended_zero_leaf_same_root (leaves : list Z) :
  length leaves < 2 ^ Nat.log2_up (length leaves) ->
  exists root siblings_list indices_list siblings_list' indices_list',
    build_merkle_tree leaves = Ok (root, siblings_list, indices_list) /\
    build_merkle_tree (leaves ++ [0%Z])
    = Ok (root, siblings_list', indices_list') /\
    length siblings_list' = S (length siblings_list).
Proof.
  intros Hn.
  destruct (build_merkle_tree_ok leaves) as [p1 [H1 [L1 _]]].
  destruct (build_merkle_tree_ok (leaves ++ [0%Z])) as [p2 [H2 [L2 _]]].
  unfold merkle_levels in H2. rewrite (padded_leaves_snoc_zero _ Hn) in H2.
  fold (merkle_levels leaves) in H2.
  do 5 eexists. split; [exact H1 |]. split; [exact H2 |].
  rewrite !length_map, L1, L2, length_app. cbn [length]. lia.
Qed.

Lemma appended_zero_leaf_same_root_witness :
  length [11; 22; 33]%Z < 2 ^ Nat.log2_up (length [11; 22; 33]%Z) /\
  exists root siblings_list indices_list siblings_list' indices_list',
    build_merkle_tree [11; 22; 33]%Z
    = Ok (root, siblings_list, indices_list) /\
    build_merkle_tree ([11; 22; 33] ++ [0])%Z
    = Ok (root, siblings_list', indices_list') /\
    length siblings_list' = S (length siblings_list).
Proof.
  split; [cbn; lia |].
  apply (appended_zero_leaf_same_root [11; 22; 33]%Z). cbn; lia.
Defined.

End TrainingExtras.

Section Binary64Extras.

Import PrimFloat.
Import Binary64.
Local Open Scope float_scope.

(** X13. [to_fixed] commutes with the change of sign: binary64 rounds the
    product with 1000 without looking at the sign and [int] truncates toward
    zero, so [to_fixed(-x)] prints the negation of the integer that
    [to_fixed(x)] prints, and raises what [to_fixed(x)] raises. *)
Theorem to_fixed_sign_symmetry (x : float) :
  to_fixed (- x) = (k <- py_int (x * PRECISION) ;; Ok (py_str (- k))).
Proof.
  unfold to_fixed.
  rewrite (py_int_opp _ _ (scaled_opp x)).
  now destruct (py_int (x * PRECISION)).
Qed.

End Binary64Extras.
